(** * sol-twitter-bot: the address extraction pipeline of [src/routes.ts]

    A shallow embedding of the webhook handler of [src/routes.ts] and of
    [getPumpTx] from [src/utils/pump.ts].

    - A JavaScript string is the list of its UTF-16 code units, which is
      what [length], [slice], [split] and the regular expression
      (no [u] flag) operate on.
    - Exceptions are explicit: a computation that may throw returns
      [exn A]; [try]/[catch] is [try_catch].
    - What the handler reaches through the engine, through libraries and
      through the network (NFKC normalisation, lower-casing, [PublicKey],
      OCR, the RPC node, the swap API) is gathered in one record [Env];
      the handler is a function of [Env] and of the request payload. *)

From Stdlib Require Import String Ascii List NArith ZArith Bool Arith Lia.
From Stdlib Require Import DecimalString.
Import ListNotations.

Local Open Scope list_scope.

(** ** JavaScript strings *)

Definition jsstring := list N.

(** An ASCII literal as a JavaScript string. *)
Definition js (s : string) : jsstring :=
  map N_of_ascii (list_ascii_of_string s).

Fixpoint jsstring_eqb (a b : jsstring) : bool :=
  match a, b with
  | [], [] => true
  | x :: a', y :: b' => N.eqb x y && jsstring_eqb a' b'
  | _, _ => false
  end.

(** [s.slice(i, j)] for [0 <= i <= j]: the end is clamped to the length. *)
Definition slice (s : jsstring) (i j : nat) : jsstring :=
  firstn (j - i) (skipn i s).

Fixpoint starts_with (p s : jsstring) : bool :=
  match p, s with
  | [], _ => true
  | x :: p', y :: s' => N.eqb x y && starts_with p' s'
  | _ :: _, [] => false
  end.

(** [s.includes(p)]. *)
Fixpoint includes (s p : jsstring) : bool :=
  starts_with p s ||
  match s with
  | [] => false
  | _ :: s' => includes s' p
  end.

(** [arr.includes(x)] on an array of strings. *)
Definition array_includes (arr : list jsstring) (x : jsstring) : bool :=
  existsb (jsstring_eqb x) arr.

(** The truthiness of an optional string field: [undefined] and the empty
    string are falsy. *)
Definition truthy (v : option jsstring) : bool :=
  match v with
  | Some (_ :: _) => true
  | _ => false
  end.

(** [v || e] with [e] the empty string. *)
Definition or_empty (v : option jsstring) : jsstring :=
  match v with
  | Some s => s
  | None => []
  end.

(** ** Exceptions *)

Inductive exn (A : Type) : Type :=
| Ok (a : A)
| Throw (message : string).

Arguments Ok {A} a.
Arguments Throw {A} message.

Definition bind {A B : Type} (m : exn A) (k : A -> exn B) : exn B :=
  match m with
  | Ok a => k a
  | Throw e => Throw e
  end.

Notation "x <- m ;; k" := (bind m (fun x => k))
  (at level 61, m at next level, right associativity).

Definition try_catch {A : Type} (body : exn A) (handler : string -> A) : A :=
  match body with
  | Ok a => a
  | Throw e => handler e
  end.

(** ** Candidate scanner: [SOLANA_ADDRESS_REGEX] and the scan loop *)

Definition in_range (lo hi c : N) : bool := N.leb lo c && N.leb c hi.

(** The character class [[1-9A-HJ-NP-Za-km-z]]. *)
Definition isBase58 (c : N) : bool :=
  in_range 49 57 c || in_range 65 72 c || in_range 74 78 c ||
  in_range 80 90 c || in_range 97 107 c || in_range 109 122 c.

(** The greedy quantifier: the longest prefix of class characters, at most
    [n] of them. *)
Fixpoint take_class (n : nat) (s : jsstring) : jsstring :=
  match n, s with
  | S n', c :: r => if isBase58 c then c :: take_class n' r else []
  | _, _ => []
  end.

(** One attempt of [/[1-9A-HJ-NP-Za-km-z]{32,44}/] at the start of [s]. *)
Definition match_here (s : jsstring) : option jsstring :=
  let r := take_class 44 s in
  if 32 <=? length r then Some r else None.

(** All matches of the global pattern, left to right, each search resuming
    where the previous match ended; [skip] counts the characters of the
    current match that are still to be passed. *)
Fixpoint exec_all (skip : nat) (s : jsstring) : list jsstring :=
  match s with
  | [] => []
  | _ :: r =>
      match skip with
      | S k => exec_all k r
      | O =>
          match match_here s with
          | Some m => m :: exec_all (length m - 1) r
          | None => exec_all 0 r
          end
      end
  end.

(** [word.match(SOLANA_ADDRESS_REGEX)]: [null] when nothing matches,
    otherwise the array of all matches. *)
Definition String_match (word : jsstring) : option (list jsstring) :=
  match exec_all 0 word with
  | [] => None
  | l => Some l
  end.

(** The window taken at offset [i]. *)
Definition window (combinedText : jsstring) (i : nat) : jsstring :=
  slice combinedText i (i + 45).

(** One iteration of the scan loop: [matches.push(match[0])] when the
    window matches. *)
Definition scan_step (combinedText : jsstring)
    (matches : list jsstring) (i : nat) : list jsstring :=
  match String_match (window combinedText i) with
  | Some (m0 :: _) => matches ++ [m0]
  | _ => matches
  end.

(** [for (let i = 0; i < combinedText.length; i++) ...]. *)
Definition scan (combinedText : jsstring) : list jsstring :=
  fold_left (scan_step combinedText) (seq 0 (length combinedText)) [].

(** ** What the handler reaches outside the repository *)

(** The result of [token.getMintInfo()] as far as [getTokenInfo] reads it. *)
Record MintInfo := {
  mint_decimals : N;
  mint_supply : N;
  mint_isInitialized : bool
}.

(** [TokenInfo] of [types/express.d.ts]; [supply] is kept as the number
    whose decimal rendering the source stores. *)
Record TokenInfo := {
  address : jsstring;
  decimals : N;
  supply : N;
  isInitialized : bool
}.

(** A [PublicKey] object is its [_bn] field. *)
Definition PublicKey := N.

(** A (serialised) transaction, a downloaded image: bytes. *)
Definition Buffer := list N.

Record Env := {
  (** [String.prototype.normalize("NFKC")] *)
  normalize_NFKC : jsstring -> jsstring;
  (** [String.prototype.toLowerCase()] *)
  toLowerCase : jsstring -> jsstring;
  (** [new PublicKey(address)] and [publicKey.toBase58()] *)
  PublicKey_new : jsstring -> exn PublicKey;
  toBase58 : PublicKey -> exn jsstring;
  (** [downloadImage] and [extractTextFromImage] *)
  downloadImage : jsstring -> exn Buffer;
  extractTextFromImage : Buffer -> exn jsstring;
  (** [token.getMintInfo()] of the lookup launched at the given position,
      and the time at which that lookup settles *)
  getMintInfo : nat -> PublicKey -> exn MintInfo;
  settle_time : nat -> nat;
  (** the pump-fun swap endpoint: mint, inAmount, priorityFeeLevel *)
  pump_swap : jsstring -> jsstring -> jsstring -> exn Buffer;
  (** [transaction.sign([from])], [getLatestBlockhash],
      [sendRawTransaction], [confirmTransaction] *)
  sign : Buffer -> exn Buffer;
  getLatestBlockhash : exn (jsstring * N);
  sendRawTransaction : Buffer -> exn jsstring;
  confirmTransaction : jsstring * N -> jsstring -> exn unit
}.

(** ** Address validator *)

Definition isValidSolanaAddress (E : Env) (address : jsstring) : bool :=
  try_catch
    (publicKey <- PublicKey_new E address ;;
     s <- toBase58 E publicKey ;;
     Ok (jsstring_eqb s address))
    (fun _ => false).

Definition BLOCKED_TOKENS (E : Env) : list jsstring :=
  [ toLowerCase E (js "4Cnk9EPnW5ixfLZatCPJjDB1PUtcRpVVgTQukm9epump");
    toLowerCase E (js "FUAfBo2jgks6gB4Z4LfZkqSZgzNucisEHqnNebaRxM1P") ].

Definition blocked (E : Env) (address : jsstring) : bool :=
  array_includes (BLOCKED_TOKENS E) (toLowerCase E address).

(** [matches.filter(address => isValidSolanaAddress(address) &&
    !BLOCKED_TOKENS.includes(address.toLowerCase()))] *)
Definition validAddresses (E : Env) (matches : list jsstring)
  : list jsstring :=
  filter (fun address =>
            isValidSolanaAddress E address && negb (blocked E address))
         matches.

(** ** Text normalisation *)

Definition homoglyphMap : list (N * jsstring) :=
  [ (1040, js "A"); (1042, js "B"); (1057, js "C"); (1045, js "E");
    (1053, js "H"); (1030, js "I"); (1032, js "J"); (1050, js "K");
    (1052, js "M"); (1054, js "O"); (1056, js "P"); (1029, js "S");
    (1058, js "T"); (933, js "Y"); (935, js "X"); (918, js "Z");
    (1072, js "a"); (1077, js "e"); (1086, js "o"); (1088, js "p");
    (1089, js "c"); (1091, js "y"); (1093, js "x") ]%N.

(** [homoglyphMap[char]] for a one-unit string [char]. *)
Fixpoint lookup (m : list (N * jsstring)) (char : N) : option jsstring :=
  match m with
  | [] => None
  | (k, v) :: m' => if N.eqb k char then Some v else lookup m' char
  end.

(** [homoglyphMap[char] || char] *)
Definition replace_char (char : N) : jsstring :=
  match lookup homoglyphMap char with
  | Some (c :: v) => c :: v
  | _ => [char]
  end.

(** [split] into code units, [map], [join] without separator. *)
Definition replace_homoglyphs (s : jsstring) : jsstring :=
  concat (map replace_char s).

Definition normalizeText (E : Env) (text : jsstring) : jsstring :=
  replace_homoglyphs (normalize_NFKC E text).

(** ** Metadata lookup *)

Definition getTokenInfo (E : Env) (pos : nat) (address : jsstring)
  : option TokenInfo :=
  try_catch
    (mint <- PublicKey_new E address ;;
     supply <- getMintInfo E pos mint ;;
     if N.eqb (mint_decimals supply) 0 then Ok None
     else Ok (Some {| address := address;
                      decimals := mint_decimals supply;
                      supply := mint_supply supply;
                      isInitialized := mint_isInitialized supply |}))
    (fun _ => None).

(** A promise that has settled: when, and how. *)
Definition Settled := (nat * exn TokenInfo)%type.

(** The promise built by the [map] callback for the lookup at [pos]. *)
Definition tokenInfoPromise (E : Env) (pos : nat) (address : jsstring)
  : Settled :=
  (settle_time E pos,
   match getTokenInfo E pos address with
   | Some tokenInfo => Ok tokenInfo
   | None => Throw "No token info found"
   end).

Definition tokenInfoPromises (E : Env) (addresses : list jsstring)
  : list Settled :=
  map (fun pa => tokenInfoPromise E (fst pa) (snd pa))
      (combine (seq 0 (length addresses)) addresses).

(** The earliest fulfilled promise; of two that settle together, the one
    created first. *)
Fixpoint first_fulfilled (best : option (nat * TokenInfo))
    (ps : list Settled) : option (nat * TokenInfo) :=
  match ps with
  | [] => best
  | (t, Ok v) :: r =>
      match best with
      | Some (t0, _) =>
          if t <? t0 then first_fulfilled (Some (t, v)) r
          else first_fulfilled best r
      | None => first_fulfilled (Some (t, v)) r
      end
  | (_, Throw _) :: r => first_fulfilled best r
  end.

(** [Promise.any]: rejects with an [AggregateError] when no promise is
    fulfilled. *)
Definition Promise_any (ps : list Settled) : exn TokenInfo :=
  match first_fulfilled None ps with
  | Some (_, v) => Ok v
  | None => Throw "All promises were rejected"
  end.

(** ** Trade policy *)

Definition DaniilP86141 : jsstring := js "DaniilP86141".

(** [user === "DaniilP86141"]; [user] is [undefined] when the payload has
    no [task.user]. *)
Definition is_user (user : option jsstring) (name : jsstring) : bool :=
  match user with
  | Some u => jsstring_eqb u name
  | None => false
  end.

Definition getAmount (address : jsstring) (user : option jsstring) : N :=
  if is_user user DaniilP86141 then
    if includes address (js "pump") then 10000000 else 100000
  else
    if includes address (js "pump") then 500000000 else 1000000000.

Definition maxLamports (user : option jsstring) : N :=
  if is_user user DaniilP86141 then 100000000 else 1000000000.

Definition priorityLevel (user : option jsstring) : jsstring :=
  if is_user user DaniilP86141 then js "medium" else js "veryHigh".

(** [amount.toString()] *)
Definition Number_toString (n : N) : jsstring :=
  js (NilZero.string_of_uint (N.to_uint n)).

(** [getPumpTx] of [utils/pump.ts]. *)
Definition getPumpTx (E : Env) (address amount priorityLevel : jsstring)
  : exn Buffer :=
  match address with
  | [] => Throw "Address is required"
  | _ :: _ =>
      pump_swap E address amount
        (if jsstring_eqb priorityLevel (js "veryHigh") then js "extreme"
         else priorityLevel)
  end.

(** ** The webhook handler *)

(** The parts of the request body the handler reads, for a body whose
    [text], [full_text] and [image] are strings or absent. A truthy
    [text] that is not a string makes [.replace] throw inside the [try],
    which sends the error response before anything is scanned; such
    bodies are outside this type. *)
Record Payload := {
  task_user : option jsstring;
  data_text : option jsstring;
  data_full_text : option jsstring;
  data_image : option jsstring
}.

Record Response := {
  http_status : N;
  status : string;
  message : string;
  source : option string;
  error : option string
}.

(** What a request does that can be seen from outside: the addresses for
    which a metadata lookup was launched, in launch order, and the
    response. *)
Record Run := {
  lookups : list jsstring;
  response : Response
}.

(** The class [\s]. *)
Definition isWhitespace (c : N) : bool :=
  in_range 9 13 c || N.eqb c 32 || N.eqb c 160 || N.eqb c 5760 ||
  in_range 8192 8202 c || N.eqb c 8232 || N.eqb c 8233 || N.eqb c 8239 ||
  N.eqb c 8287 || N.eqb c 12288 || N.eqb c 65279.

(** [.replace(/\s+/g, e)] with [e] the empty string: every run of
    whitespace is deleted. *)
Definition remove_whitespace (s : jsstring) : jsstring :=
  filter (fun c => negb (isWhitespace c)) s.

(** The [text] constant of the handler. *)
Definition text_field (p : Payload) : jsstring :=
  remove_whitespace (or_empty (data_text p)).

(** The [fulltext] constant of the handler. *)
Definition fulltext_field (p : Payload) : jsstring :=
  or_empty (data_full_text p).

(** [combinedText] once the image block has run. *)
Definition combinedText (E : Env) (p : Payload) : jsstring :=
  let combined := normalizeText E (fulltext_field p ++ js " " ++ text_field p) in
  if truthy (data_image p) then
    try_catch
      (imageBuffer <- downloadImage E (or_empty (data_image p)) ;;
       imageText <- extractTextFromImage E imageBuffer ;;
       Ok (combined ++ js " " ++ normalizeText E imageText))
      (fun _ => combined)
  else combined.

Definition no_valid_response : Response :=
  {| http_status := 200;
     status := "success";
     message := "No valid token addresses found";
     source := None;
     error := None |}.

Definition processed_response (p : Payload) : Response :=
  {| http_status := 200;
     status := "success";
     message := "Successfully processed webhook for Solana addresses";
     source := Some (if truthy (data_image p) then "text and image"
                     else "text only")%string;
     error := None |}.

Definition error_response (e : string) : Response :=
  {| http_status := 500;
     status := "error";
     message := "Error processing webhook";
     error := Some e;
     source := None |}.

(** The trade, from the settled promises to the confirmation. *)
Definition dispatch (E : Env) (p : Payload) (promises : list Settled)
  : exn unit :=
  tokenInfo <- Promise_any promises ;;
  let amount := getAmount (address tokenInfo) (task_user p) in
  transaction <- getPumpTx E (address tokenInfo) (Number_toString amount)
                   (priorityLevel (task_user p)) ;;
  signed <- sign E transaction ;;
  latestBlockHash <- getLatestBlockhash E ;;
  txid <- sendRawTransaction E signed ;;
  confirmTransaction E latestBlockHash txid.

(** [router.post("/webhooks", ...)], after signature verification. *)
Definition webhook (E : Env) (p : Payload) : Run :=
  let matches := scan (combinedText E p) in
  match matches with
  | _ :: _ =>
      let valid := validAddresses E matches in
      match valid with
      | _ :: _ =>
          {| lookups := valid;
             response :=
               try_catch
                 (_ <- dispatch E p (tokenInfoPromises E valid) ;;
                  Ok (processed_response p))
                 error_response |}
      | [] => {| lookups := []; response := no_valid_response |}
      end
  | [] => {| lookups := []; response := processed_response p |}
  end.

(** ** A reference environment

    Concrete stand-ins for the engine and library functions of [Env], used
    to run the handler on concrete requests. *)

Module Ref.

(** [toLowerCase] on strings of code units below 128. *)
Definition ascii_toLowerCase (s : jsstring) : jsstring :=
  map (fun c => if in_range 65 90 c then (c + 32)%N else c) s.

(** NFKC on the strings used below. Strings of code units below 128 and
    of keys of [homoglyphMap] are in NFKC form already (none of these
    characters has a decomposition or is a combining mark); U+0430 U+0301
    has no precomposed form and is unchanged; U+0061 U+0301 composes into
    U+00E1. *)
Fixpoint nfkc (s : jsstring) : jsstring :=
  match s with
  | [] => []
  | c :: r =>
      match r with
      | d :: r' =>
          if N.eqb c 97 && N.eqb d 769 then 225%N :: nfkc r'
          else c :: nfkc r
      | [] => [c]
      end
  end.

(** The Base58 alphabet of [bs58]. *)
Definition ALPHABET : jsstring :=
  js "123456789ABCDEFGHJKLMNPQRSTUVWXYZabcdefghijkmnopqrstuvwxyz".

Fixpoint index_of (c : N) (l : jsstring) : option N :=
  match l with
  | [] => None
  | x :: l' =>
      if N.eqb x c then Some 0%N
      else option_map N.succ (index_of c l')
  end.

(** The digits of [n] in base [b], most significant first. *)
Fixpoint digits (b : N) (fuel : nat) (n : N) (acc : list N) : list N :=
  match fuel with
  | O => acc
  | S f => if N.eqb n 0 then acc
           else digits b f (n / b) ((n mod b)%N :: acc)
  end.

Definition number (b : N) (ds : list N) : N :=
  fold_left (fun acc d => (acc * b + d)%N) ds 0%N.

Fixpoint leading (z : N) (l : list N) : nat :=
  match l with
  | x :: l' => if N.eqb x z then S (leading z l') else O
  | [] => O
  end.

Fixpoint base58_values (s : jsstring) : exn (list N) :=
  match s with
  | [] => Ok []
  | c :: r =>
      match index_of c ALPHABET with
      | Some d => ds <- base58_values r ;; Ok (d :: ds)
      | None => Throw "Non-base58 character"
      end
  end.

(** [bs58.decode]: a leading ['1'] is a zero byte, the rest is a number
    written in base 58. *)
Definition bs58_decode (s : jsstring) : exn (list N) :=
  ds <- base58_values s ;;
  let zeroes := leading 0 ds in
  Ok (repeat 0%N zeroes ++ digits 256 (length s) (number 58 ds) []).

(** [bs58.encode] *)
Definition bs58_encode (bytes : list N) : jsstring :=
  let zeroes := leading 0 bytes in
  repeat 49%N zeroes ++
  map (fun d => nth (N.to_nat d) ALPHABET 0%N)
      (digits 58 (2 * length bytes) (number 256 bytes) []).

(** [new PublicKey(value)] for a string [value]. *)
Definition PublicKey_of_string (s : jsstring) : exn PublicKey :=
  decoded <- bs58_decode s ;;
  if length decoded =? 32 then Ok (number 256 decoded)
  else Throw "Invalid public key input".

(** [toBuffer]: the big-endian bytes of [_bn], padded to 32. *)
Definition toBuffer (k : PublicKey) : list N :=
  let b := digits 256 32 k [] in
  repeat 0%N (32 - length b) ++ b.

Definition PublicKey_toBase58 (k : PublicKey) : exn jsstring :=
  Ok (bs58_encode (toBuffer k)).

(** An environment whose collaborators all fail: no image can be
    fetched, no mint account is found, no swap is built. *)
Definition offline : Env :=
  {| normalize_NFKC := nfkc;
     toLowerCase := ascii_toLowerCase;
     PublicKey_new := PublicKey_of_string;
     toBase58 := PublicKey_toBase58;
     downloadImage := fun _ => Throw "fetch failed";
     extractTextFromImage := fun _ => Throw "recognize failed";
     getMintInfo := fun _ _ => Throw "failed to find account";
     settle_time := fun pos => pos;
     pump_swap := fun _ _ _ => Throw "fetch failed";
     sign := fun tx => Ok tx;
     getLatestBlockhash := Throw "fetch failed";
     sendRawTransaction := fun _ => Throw "fetch failed";
     confirmTransaction := fun _ _ => Throw "fetch failed" |}.

(** An environment in which every mint resolves (6 decimals) and the
    trade goes through. *)
Definition online : Env :=
  {| normalize_NFKC := nfkc;
     toLowerCase := ascii_toLowerCase;
     PublicKey_new := PublicKey_of_string;
     toBase58 := PublicKey_toBase58;
     downloadImage := fun _ => Throw "fetch failed";
     extractTextFromImage := fun _ => Throw "recognize failed";
     getMintInfo := fun _ _ =>
       Ok {| mint_decimals := 6; mint_supply := 1000000;
             mint_isInitialized := true |};
     settle_time := fun pos => pos;
     pump_swap := fun _ _ _ => Ok [1%N];
     sign := fun tx => Ok tx;
     getLatestBlockhash := Ok (js "hash", 1%N);
     sendRawTransaction := fun _ => Ok (js "txid");
     confirmTransaction := fun _ _ => Ok tt |}.

(** The System Program address: 32 times ['1']. *)
Definition system_program : jsstring := repeat 49%N 32.

Definition USDC : jsstring :=
  js "EPjFWdd5AufqSSqeM2qN1xzybapC8G4wEGGkZwyTDt1v".

(** The first entry of the block list, as written in the source. *)
Definition blocked_pump : jsstring :=
  js "4Cnk9EPnW5ixfLZatCPJjDB1PUtcRpVVgTQukm9epump".

End Ref.

(** * Vocabulary of the properties *)

(** What iteration [i] pushes. *)
Definition pushed (t : jsstring) (i : nat) : list jsstring :=
  match String_match (window t i) with
  | Some (m0 :: _) => [m0]
  | _ => []
  end.

(** A string the pattern matches from end to end. *)
Definition address_shape (a : jsstring) : Prop :=
  32 <= length a <= 44 /\ Forall (fun c => isBase58 c = true) a.

Definition address_shapeb (a : jsstring) : bool :=
  (32 <=? length a) && (length a <=? 44) && forallb isBase58 a.

(** [a] occurs in [t] at offset [i]. *)
Definition occurs_at (a t : jsstring) (i : nat) : Prop :=
  exists pre post, t = pre ++ a ++ post /\ length pre = i.

(** The address ends where the run of Base58 characters ends, or it has
    the full 44 characters. *)
Definition right_delimited (a post : jsstring) : Prop :=
  length a = 44 \/
  match post with
  | [] => True
  | c :: _ => isBase58 c = false
  end.

(** The claim of C2 as the specification states it, at one text, address
    and offset. *)
Definition scanner_complete_at (t a : jsstring) (i : nat) : Prop :=
  address_shape a -> occurs_at a t i -> In a (scan t).

Definition substring (u w : jsstring) : Prop :=
  exists pre post, w = pre ++ u ++ post.

Definition rejected (s : Settled) : Prop := exists e, snd s = Throw e.

(** The candidates, the validated addresses and the promises of a
    request. *)
Definition candidates (E : Env) (p : Payload) : list jsstring :=
  scan (combinedText E p).

Definition validated (E : Env) (p : Payload) : list jsstring :=
  validAddresses E (candidates E p).

Definition promises (E : Env) (p : Payload) : list Settled :=
  tokenInfoPromises E (validated E p).

(** The claim of C1 as the specification states it, at one request. *)
Definition total_failure_is_benign (E : Env) (p : Payload) : Prop :=
  candidates E p <> [] ->
  Forall rejected (promises E p) ->
  status (response (webhook E p)) = "success"%string.

(** A request whose text is the System Program address, with no RPC node
    reachable. *)
Definition system_program_request : Payload :=
  {| task_user := None;
     data_text := None;
     data_full_text := Some Ref.system_program;
     data_image := None |}.

(** The distinct strings of a sequence. *)
Fixpoint distinct (l : list jsstring) : list jsstring :=
  match l with
  | [] => []
  | x :: r => if array_includes r x then distinct r else x :: distinct r
  end.

(** The claim of C4 as the specification states it, at one request. *)
Definition one_lookup_per_distinct_address (E : Env) (p : Payload) : Prop :=
  length (lookups (webhook E p)) = length (distinct (validated E p)).

(** A request whose [text] field is the System Program address: the
    separator put before it makes two windows yield the address. *)
Definition repeated_address_request : Payload :=
  {| task_user := None;
     data_text := Some Ref.system_program;
     data_full_text := None;
     data_image := None |}.

(** The claim of C7 as the specification states it, at one string. *)
Definition normalizeText_idempotent_at (E : Env) (s : jsstring) : Prop :=
  normalizeText E (normalizeText E s) = normalizeText E s.

(** The claim of C8 as the specification states it, at one user and two
    addresses. *)
Definition amount_ignores_address (user : option jsstring)
    (a1 a2 : jsstring) : Prop :=
  getAmount a1 user = getAmount a2 user.

(** The OCR text of the image, when the payload has an image and both the
    download and the recognition succeed. *)
Definition imageText (E : Env) (p : Payload) : option jsstring :=
  if truthy (data_image p) then
    try_catch
      (imageBuffer <- downloadImage E (or_empty (data_image p)) ;;
       text <- extractTextFromImage E imageBuffer ;;
       Ok (Some text))
      (fun _ => None)
  else None.

(** An address written on two lines in the [text] field, with spaces in
    [full_text] and an image whose text has spaces. *)
Definition split_address_request : Payload :=
  {| task_user := None;
     data_text := Some (js "EPjFWdd5AufqSSqeM2qN1x" ++ [10; 32]%N ++
                        js "zybapC8G4wEGGkZwyTDt1v");
     data_full_text := Some (js "new token");
     data_image := Some (js "https://img") |}.

(** The reference environment with an image service that answers. *)
Definition with_image (E : Env) (ocr : jsstring) : Env :=
  {| normalize_NFKC := normalize_NFKC E;
     toLowerCase := toLowerCase E;
     PublicKey_new := PublicKey_new E;
     toBase58 := toBase58 E;
     downloadImage := fun _ => Ok [];
     extractTextFromImage := fun _ => Ok ocr;
     getMintInfo := getMintInfo E;
     settle_time := settle_time E;
     pump_swap := pump_swap E;
     sign := sign E;
     getLatestBlockhash := getLatestBlockhash E;
     sendRawTransaction := sendRawTransaction E;
     confirmTransaction := confirmTransaction E |}.

(** A request with an image that cannot be downloaded and a text without
    any candidate. *)
Definition unreadable_image_request : Payload :=
  {| task_user := None;
     data_text := None;
     data_full_text := Some (js "gm");
     data_image := Some (js "https://img") |}.

(** The payload with its [image] field left out. *)
Definition without_image (p : Payload) : Payload :=
  {| task_user := task_user p;
     data_text := data_text p;
     data_full_text := data_full_text p;
     data_image := None |}.

(** The [priorityFeeLevel] of the request body that [getPumpTx] sends for
    the priority level the handler chooses for [user]. *)
Definition sent_fee_level (user : option jsstring) : jsstring :=
  if is_user user DaniilP86141 then js "medium" else js "extreme".

(** What the image block appends to [combinedText]. *)
Definition image_part (E : Env) (p : Payload) : jsstring :=
  match imageText E p with
  | Some ocr => js " " ++ normalizeText E ocr
  | None => []
  end.

(** The normalised text of the [full_text] and [text] fields. *)
Definition text_part (E : Env) (p : Payload) : jsstring :=
  normalizeText E (fulltext_field p ++ js " " ++ text_field p).

(** The claim of C9 on candidates as the specification states it, at
    one request: an address split by whitespace in the [text] field is a
    candidate. *)
Definition split_address_becomes_candidate (E : Env) (p : Payload) : Prop :=
  forall pre a1 gap a2 post,
    data_text p = Some (pre ++ a1 ++ gap ++ a2 ++ post) ->
    Forall (fun c => isWhitespace c = true) gap ->
    address_shape (a1 ++ a2) ->
    In (a1 ++ a2) (candidates E p).

(** A 43-character address written on two lines of the [text] field,
    between two words. *)
Definition glued_split_request : Payload :=
  {| task_user := None;
     data_text := Some (js "buy " ++ js "PjFWdd5AufqSSqeM2qN1x" ++
                        [10; 32]%N ++ js "zybapC8G4wEGGkZwyTDt1v" ++
                        js " now");
     data_full_text := None;
     data_image := None |}.

(** The same address on two lines, between a label and a mark that are
    not Base58. *)
Definition delimited_split_request : Payload :=
  {| task_user := None;
     data_text := Some (js "CA: " ++ js "PjFWdd5AufqSSqeM2qN1x" ++
                        [10; 32]%N ++ js "zybapC8G4wEGGkZwyTDt1v" ++
                        js " !");
     data_full_text := Some (js "new token");
     data_image := Some (js "https://img") |}.

(** * Properties *)

(** ** Strings *)

Lemma jsstring_eqb_eq (a b : jsstring) : jsstring_eqb a b = true <-> a = b.
Proof.
  revert b; induction a as [|x a IH]; intros [|y b]; simpl;
    try (split; [discriminate | congruence]); try tauto.
  rewrite andb_true_iff, N.eqb_eq, IH.
  split; [intros [-> ->]; reflexivity | intros [= -> ->]; auto].
Qed.

Lemma jsstring_eqb_refl (a : jsstring) : jsstring_eqb a a = true.
Proof. apply jsstring_eqb_eq; reflexivity. Qed.

Lemma array_includes_In (arr : list jsstring) (x : jsstring) :
  array_includes arr x = true <-> In x arr.
Proof.
  unfold array_includes. rewrite existsb_exists. split.
  - intros [y [Hy Heq]]. apply jsstring_eqb_eq in Heq. subst; assumption.
  - intros H. exists x. split; [assumption | apply jsstring_eqb_refl].
Qed.

Lemma not_In_by_includes (arr : list jsstring) (x : jsstring) :
  array_includes arr x = false -> ~ In x arr.
Proof.
  intros H Hin. apply array_includes_In in Hin. congruence.
Qed.

(** ** The scan loop as a comprehension *)

Lemma scan_step_pushed (t : jsstring) (acc : list jsstring) (i : nat) :
  scan_step t acc i = acc ++ pushed t i.
Proof.
  unfold scan_step, pushed.
  destruct (String_match (window t i)) as [[|m0 ms]|];
    simpl; try rewrite app_nil_r; reflexivity.
Qed.

Lemma fold_scan_step (t : jsstring) (l : list nat) (acc : list jsstring) :
  fold_left (scan_step t) l acc = acc ++ flat_map (pushed t) l.
Proof.
  revert acc; induction l as [|i l IH]; intros acc; simpl.
  - now rewrite app_nil_r.
  - rewrite IH, scan_step_pushed, <- app_assoc. reflexivity.
Qed.

Lemma scan_flat_map (t : jsstring) :
  scan t = flat_map (pushed t) (seq 0 (length t)).
Proof. unfold scan. now rewrite fold_scan_step. Qed.

Lemma in_scan (t : jsstring) (m : jsstring) :
  In m (scan t) <-> exists i, i < length t /\ In m (pushed t i).
Proof.
  rewrite scan_flat_map, in_flat_map. split.
  - intros [i [Hi Hm]]. apply in_seq in Hi. exists i. split; [lia | assumption].
  - intros [i [Hi Hm]]. exists i. split; [apply in_seq; lia | assumption].
Qed.

(** ** The pattern *)

Lemma address_shapeb_spec (a : jsstring) :
  address_shapeb a = true <-> address_shape a.
Proof.
  unfold address_shapeb, address_shape.
  rewrite !andb_true_iff, !Nat.leb_le, forallb_forall, Forall_forall.
  tauto.
Qed.

Lemma take_class_length (n : nat) (s : jsstring) :
  length (take_class n s) <= n /\ length (take_class n s) <= length s.
Proof.
  revert s; induction n as [|n IH]; intros [|c r]; simpl; try lia.
  destruct (isBase58 c); simpl; [specialize (IH r) |]; lia.
Qed.

Lemma take_class_all (n : nat) (s : jsstring) :
  Forall (fun c => isBase58 c = true) (take_class n s).
Proof.
  revert s; induction n as [|n IH]; intros [|c r]; simpl; try constructor.
  destruct (isBase58 c) eqn:Hc; constructor; auto.
Qed.

Lemma take_class_app (n : nat) (a r : jsstring) :
  Forall (fun c => isBase58 c = true) a ->
  length a <= n ->
  take_class n (a ++ r) = a ++ take_class (n - length a) r.
Proof.
  revert n; induction a as [|c a IH]; intros n Ha Hn; simpl.
  - now rewrite Nat.sub_0_r.
  - inversion Ha as [|? ? Hc Ha']; subst.
    destruct n as [|n]; simpl in *; [lia |].
    rewrite Hc, IH by (auto; lia). reflexivity.
Qed.

Lemma match_here_shape (s m : jsstring) :
  match_here s = Some m -> address_shape m.
Proof.
  unfold match_here, address_shape.
  pose proof (take_class_length 44 s) as [Hl _].
  pose proof (take_class_all 44 s) as Ha.
  remember (take_class 44 s) as r eqn:Hr. clear Hr.
  destruct (Nat.leb_spec 32 (length r)) as [H|H]; [|discriminate].
  intros Hm. assert (r = m) by congruence. subst r. auto.
Qed.

(** Every candidate has the shape of an address. *)
Lemma exec_all_shape (s : jsstring) (skip : nat) (m : jsstring) :
  In m (exec_all skip s) -> address_shape m.
Proof.
  revert skip; induction s as [|c r IH]; intros skip; simpl; [tauto|].
  destruct skip as [|k]; [|apply IH].
  destruct (match_here (c :: r)) as [m'|] eqn:Hm; [|apply IH].
  intros [<-|H]; [eapply match_here_shape; eassumption | eapply IH; eassumption].
Qed.

Lemma scan_shape (t m : jsstring) : In m (scan t) -> address_shape m.
Proof.
  rewrite in_scan. intros [i [_ Hm]]. unfold pushed, String_match in Hm.
  destruct (exec_all 0 (window t i)) as [|m0 ms] eqn:He; simpl in Hm; [tauto|].
  destruct Hm as [<-|[]].
  apply (exec_all_shape (window t i) 0). rewrite He. now left.
Qed.

(** After a match nothing of a 45-character window is long enough to
    match again. *)
Lemma exec_all_short (s : jsstring) (skip : nat) :
  length s < skip + 32 -> exec_all skip s = [].
Proof.
  revert skip; induction s as [|c r IH]; intros skip H; simpl; [reflexivity|].
  simpl in H. destruct skip as [|k].
  - unfold match_here.
    pose proof (take_class_length 44 (c :: r)) as [_ Hl].
    remember (take_class 44 (c :: r)) as m eqn:Hm. clear Hm.
    simpl length in Hl.
    destruct (Nat.leb_spec 32 (length m)); [lia|].
    apply IH. lia.
  - apply IH. lia.
Qed.

Lemma exec_all_at_most_one (s : jsstring) (skip : nat) :
  length s <= 45 + skip -> length (exec_all skip s) <= 1.
Proof.
  revert skip; induction s as [|c r IH]; intros skip H; simpl; [lia|].
  simpl in H. destruct skip as [|k].
  - destruct (match_here (c :: r)) as [m|] eqn:Hm.
    + apply match_here_shape in Hm. destruct Hm as [[Hlo _] _].
      rewrite exec_all_short by lia. simpl; lia.
    + apply IH. lia.
  - apply IH. lia.
Qed.

Lemma window_length (t : jsstring) (i : nat) : length (window t i) <= 45.
Proof.
  unfold window, slice. rewrite length_firstn. lia.
Qed.

Lemma pushed_exec_all (t : jsstring) (i : nat) :
  pushed t i = exec_all 0 (window t i).
Proof.
  pose proof (exec_all_at_most_one (window t i) 0) as H.
  pose proof (window_length t i) as Hw.
  unfold pushed, String_match.
  destruct (exec_all 0 (window t i)) as [|m0 [|m1 ms]]; try reflexivity.
  simpl in H. lia.
Qed.

Lemma window_at (pre rest : jsstring) :
  window (pre ++ rest) (length pre) = firstn 45 rest.
Proof.
  unfold window, slice.
  replace (length pre + 45 - length pre) with 45 by lia.
  rewrite skipn_app, skipn_all, Nat.sub_diag. reflexivity.
Qed.

(** ** Scanner completeness (C2) *)

Lemma match_here_delimited (a post : jsstring) :
  address_shape a -> right_delimited a post ->
  match_here (firstn 45 (a ++ post)) = Some a.
Proof.
  intros [[Hlo Hhi] Hall] Hd. unfold match_here.
  assert (Ht : take_class 44 (firstn 45 (a ++ post)) = a).
  { rewrite firstn_app, firstn_all2 by lia.
    rewrite take_class_app by (auto; lia).
    assert (Hz : take_class (44 - length a) (firstn (45 - length a) post) = []).
    { destruct Hd as [H44|Hp].
      - rewrite H44. reflexivity.
      - destruct post as [|c post].
        + rewrite firstn_nil. now destruct (44 - length a).
        + destruct (45 - length a) as [|k] eqn:Hk; [lia|].
          simpl firstn. destruct (44 - length a); simpl; [reflexivity|].
          now rewrite Hp. }
    rewrite Hz. apply app_nil_r. }
  rewrite Ht. destruct (Nat.leb_spec 32 (length a)); [reflexivity | lia].
Qed.

(** C2, as amended: an address-shaped string that occurs in the text and
    is right-delimited (it has 44 characters, or the text ends after it,
    or the next character is outside the Base58 class) appears among the
    candidates of the sliding-window scan. *)
Theorem scan_finds_delimited_address (pre a post : jsstring) :
  address_shape a ->
  right_delimited a post ->
  In a (scan (pre ++ a ++ post)).
Proof.
  intros Hs Hd. apply in_scan. exists (length pre). split.
  - destruct Hs as [[Hlo _] _]. rewrite !length_app. lia.
  - rewrite pushed_exec_all, window_at.
    pose proof (match_here_delimited a post Hs Hd) as Hm.
    destruct Hs as [[Hlo _] _].
    destruct (firstn 45 (a ++ post)) as [|c r] eqn:Hf.
    + unfold match_here in Hm. simpl in Hm. discriminate.
    + simpl. rewrite Hm. now left.
Qed.

(** C2 fails as stated: the System Program address followed by the
    Base58 character ['2'] is never a candidate, because the greedy
    quantifier takes the following character too. *)
Lemma scanner_incomplete_without_delimiter :
  isValidSolanaAddress Ref.offline Ref.system_program = true /\
  ~ scanner_complete_at (Ref.system_program ++ js "2") Ref.system_program 0.
Proof.
  split; [vm_compute; reflexivity|].
  intros H. refine (not_In_by_includes _ _ _ (H _ _)).
  - vm_compute; reflexivity.
  - apply address_shapeb_spec. vm_compute; reflexivity.
  - exists [], (js "2"). split; reflexivity.
Qed.

Lemma scan_finds_delimited_address_witness :
  In Ref.USDC (scan (js "buy " ++ Ref.USDC ++ js " now")).
Proof.
  apply (scan_finds_delimited_address (js "buy ") Ref.USDC (js " now")).
  - apply address_shapeb_spec. vm_compute; reflexivity.
  - left. vm_compute; reflexivity.
Defined.

(** ** One push per window (C3) *)

(** A window holds at most one match of the global pattern, the leftmost
    one taken greedily, so pushing the first match pushes all of them;
    the candidates are the matches of the windows, in window order. *)
Lemma scan_pushes_first_match (t : jsstring) :
  (forall i, length (exec_all 0 (window t i)) <= 1) /\
  (forall i m, i < length t -> In m (exec_all 0 (window t i)) ->
     In m (scan t)) /\
  scan t = flat_map (fun i => exec_all 0 (window t i)) (seq 0 (length t)).
Proof.
  split; [|split].
  - intros i. apply exec_all_at_most_one. pose proof (window_length t i). lia.
  - intros i m Hi Hm. apply in_scan. exists i. split; [assumption|].
    now rewrite pushed_exec_all.
  - rewrite scan_flat_map. apply flat_map_ext. intros i. apply pushed_exec_all.
Qed.

(** C3: for every window, every string in the array that
    [word.match] returns for that window is appended to the candidate
    list. *)
Theorem every_window_match_is_appended (t : jsstring) (i : nat)
    (l : list jsstring) (m : jsstring) :
  i < length t ->
  String_match (window t i) = Some l ->
  In m l ->
  In m (scan t).
Proof.
  intros Hi Hl Hm. apply in_scan. exists i. split; [assumption|].
  rewrite pushed_exec_all. unfold String_match in Hl.
  destruct (exec_all 0 (window t i)) as [|m0 ms]; [discriminate|].
  injection Hl as <-. exact Hm.
Qed.

Lemma every_window_match_is_appended_witness :
  In Ref.USDC (scan (js "buy " ++ Ref.USDC ++ js " now")).
Proof.
  apply (every_window_match_is_appended
           (js "buy " ++ Ref.USDC ++ js " now") 4 [Ref.USDC] Ref.USDC).
  - vm_compute. lia.
  - vm_compute. reflexivity.
  - left. reflexivity.
Defined.

(** ** Address validator (C5) *)

(** C5: the validator returns a boolean on every candidate; the boolean
    is [true] exactly when [new PublicKey] succeeds and [toBase58] of the
    key gives the candidate back, and a failure of either step gives
    [false]. *)
Theorem isValidSolanaAddress_spec (E : Env) (candidate : jsstring) :
  (isValidSolanaAddress E candidate = true <->
   exists k, PublicKey_new E candidate = Ok k /\ toBase58 E k = Ok candidate)
  /\
  (forall e, PublicKey_new E candidate = Throw e ->
             isValidSolanaAddress E candidate = false)
  /\
  (forall k e, PublicKey_new E candidate = Ok k -> toBase58 E k = Throw e ->
               isValidSolanaAddress E candidate = false).
Proof.
  unfold isValidSolanaAddress. split; [split|split].
  - destruct (PublicKey_new E candidate) as [k|e]; simpl; [|discriminate].
    destruct (toBase58 E k) as [s|e] eqn:Hs; simpl; [|discriminate].
    intros H. apply jsstring_eqb_eq in H. subst s. eauto.
  - intros [k [-> Hk]]. simpl. rewrite Hk. simpl. apply jsstring_eqb_refl.
  - intros e ->. reflexivity.
  - intros k e -> Hk. simpl. now rewrite Hk.
Qed.

(** The reference decoder on the failures the specification lists: a
    character outside the alphabet, and a string that decodes to fewer
    than 32 bytes. *)
Example invalid_character_fails :
  Ref.PublicKey_of_string (js "0Pjfwdd5AufqSSqeM2qN1xzybapC8G4wEGGkZwyTDt1v")
    = Throw "Non-base58 character" /\
  isValidSolanaAddress Ref.offline
    (js "0Pjfwdd5AufqSSqeM2qN1xzybapC8G4wEGGkZwyTDt1v") = false.
Proof. split; vm_compute; reflexivity. Qed.

Example wrong_length_fails :
  Ref.PublicKey_of_string (js "EPjFWdd5AufqSSqeM2qN1xzybapC8G4wEGGk")
    = Throw "Invalid public key input" /\
  isValidSolanaAddress Ref.offline
    (js "EPjFWdd5AufqSSqeM2qN1xzybapC8G4wEGGk") = false.
Proof. split; vm_compute; reflexivity. Qed.

(** ** Block list (C6) *)

Lemma In_validAddresses (E : Env) (matches : list jsstring) (c : jsstring) :
  In c (validAddresses E matches) <->
  In c matches /\ isValidSolanaAddress E c = true /\ blocked E c = false.
Proof.
  unfold validAddresses. rewrite filter_In, andb_true_iff, negb_true_iff.
  tauto.
Qed.

Lemma blocked_In (E : Env) (c : jsstring) :
  blocked E c = true <-> In (toLowerCase E c) (BLOCKED_TOKENS E).
Proof. apply array_includes_In. Qed.

(** C6: a candidate whose lower-case form is in [BLOCKED_TOKENS] is not in
    the validated sequence, whatever the validator says of it; a candidate
    whose lower-case form is not there is kept exactly when the validator
    accepts it, and the validated sequence is the valid candidates with
    the blocked ones removed. *)
Theorem blocklist_filtering (E : Env) (matches : list jsstring)
    (c : jsstring) :
  (In (toLowerCase E c) (BLOCKED_TOKENS E) ->
   ~ In c (validAddresses E matches))
  /\
  (~ In (toLowerCase E c) (BLOCKED_TOKENS E) ->
   (In c (validAddresses E matches) <->
    In c matches /\ isValidSolanaAddress E c = true))
  /\
  validAddresses E matches =
    filter (fun a => negb (blocked E a))
           (filter (isValidSolanaAddress E) matches).
Proof.
  split; [|split].
  - intros Hb Hin. apply In_validAddresses in Hin.
    apply blocked_In in Hb. destruct Hin as (_ & _ & Hn). congruence.
  - intros Hn. rewrite In_validAddresses. split; [tauto|].
    intros [Hin Hv]. repeat split; auto.
    destruct (blocked E c) eqn:Hb; [|reflexivity].
    apply blocked_In in Hb. contradiction.
  - unfold validAddresses. induction matches as [|m ms IH]; simpl; [reflexivity|].
    destruct (isValidSolanaAddress E m); simpl;
      [destruct (blocked E m); simpl; now rewrite IH | exact IH].
Qed.

Lemma blocklist_filtering_witness :
  ~ In Ref.blocked_pump
       (validAddresses Ref.offline (scan Ref.blocked_pump)) /\
  isValidSolanaAddress Ref.offline Ref.blocked_pump = true /\
  (In Ref.USDC (validAddresses Ref.offline (scan Ref.USDC)) <->
   In Ref.USDC (scan Ref.USDC) /\
   isValidSolanaAddress Ref.offline Ref.USDC = true).
Proof.
  pose proof (blocklist_filtering Ref.offline (scan Ref.blocked_pump)
                Ref.blocked_pump) as [Hblocked _].
  pose proof (blocklist_filtering Ref.offline (scan Ref.USDC) Ref.USDC)
    as [_ [Hkept _]].
  split; [|split].
  - apply Hblocked. apply array_includes_In. vm_compute. reflexivity.
  - vm_compute. reflexivity.
  - apply Hkept. apply not_In_by_includes. vm_compute. reflexivity.
Defined.

(** ** Resolution failure (C1) *)

Lemma first_fulfilled_rejected (ps : list Settled)
    (best : option (nat * TokenInfo)) :
  Forall rejected ps -> first_fulfilled best ps = best.
Proof.
  induction 1 as [|[t o] ps [e He] _ IH]; simpl; [reflexivity|].
  simpl in He. subst o. exact IH.
Qed.

Lemma Promise_any_all_rejected (ps : list Settled) :
  Forall rejected ps -> Promise_any ps = Throw "All promises were rejected".
Proof.
  intros H. unfold Promise_any. now rewrite first_fulfilled_rejected.
Qed.

(** A lookup is rejected exactly when [getTokenInfo] gives [null], which
    covers both a thrown error and zero decimals. *)
Lemma tokenInfoPromise_rejected (E : Env) (pos : nat) (a : jsstring) :
  rejected (tokenInfoPromise E pos a) <-> getTokenInfo E pos a = None.
Proof.
  unfold rejected, tokenInfoPromise. simpl.
  destruct (getTokenInfo E pos a); split; intros H;
    try discriminate; try reflexivity; eauto.
  destruct H; discriminate.
Qed.

(** C1, as amended: when the scanner finds a match and every lookup that
    is launched fails, the response is the benign "No valid token
    addresses found" only if no candidate passed validation (no lookup was
    launched); if at least one address was validated, [Promise.any]
    rejects and the caller receives the error response with status 500. *)
Theorem total_failure_response (E : Env) (p : Payload) :
  candidates E p <> [] ->
  Forall rejected (promises E p) ->
  response (webhook E p) =
    match validated E p with
    | [] => no_valid_response
    | _ :: _ => error_response "All promises were rejected"
    end.
Proof.
  unfold promises, validated, candidates, webhook.
  destruct (scan (combinedText E p)) as [|m ms]; [congruence|].
  intros _ Hrej.
  destruct (validAddresses E (m :: ms)) as [|a l]; [reflexivity|].
  cbn [response]. unfold dispatch.
  rewrite (Promise_any_all_rejected _ Hrej). reflexivity.
Qed.

(** C1 fails as stated: one validated address whose lookup fails gives
    the error response. *)
Lemma total_failure_is_an_error :
  ~ total_failure_is_benign Ref.offline system_program_request /\
  response (webhook Ref.offline system_program_request)
    = error_response "All promises were rejected".
Proof.
  split; [|vm_compute; reflexivity].
  intros H.
  assert (Hs : status (response (webhook Ref.offline system_program_request))
               = "success"%string).
  { apply H.
    - vm_compute. discriminate.
    - vm_compute. repeat constructor. eexists. reflexivity. }
  vm_compute in Hs. discriminate.
Qed.

Lemma total_failure_response_witness :
  response (webhook Ref.offline system_program_request)
    = error_response "All promises were rejected".
Proof.
  pose proof (total_failure_response Ref.offline system_program_request) as H.
  change (validated Ref.offline system_program_request)
    with [Ref.system_program] in H.
  apply H.
  - vm_compute. discriminate.
  - vm_compute. repeat constructor. eexists. reflexivity.
Defined.

(** ** Lookups launched (C4) *)

Lemma tokenInfoPromises_length (E : Env) (l : list jsstring) :
  length (tokenInfoPromises E l) = length l.
Proof.
  unfold tokenInfoPromises.
  rewrite length_map, length_combine, length_seq. lia.
Qed.

Lemma nth_error_combine_seq (l : list jsstring) (k i : nat) (a : jsstring) :
  nth_error l i = Some a ->
  nth_error (combine (seq k (length l)) l) i = Some (k + i, a).
Proof.
  revert k i; induction l as [|x l IH]; intros k [|i] H; simpl in *;
    try discriminate.
  - rewrite Nat.add_0_r. congruence.
  - rewrite (IH (S k) i H). f_equal. f_equal. lia.
Qed.

Lemma tokenInfoPromises_nth (E : Env) (l : list jsstring) (i : nat)
    (a : jsstring) :
  nth_error l i = Some a ->
  nth_error (tokenInfoPromises E l) i = Some (tokenInfoPromise E i a).
Proof.
  unfold tokenInfoPromises. intros H.
  rewrite nth_error_map, (nth_error_combine_seq l 0 i a H). reflexivity.
Qed.

(** C4, as amended: one lookup is launched per entry of the validated
    sequence, repeated entries included: the lookups are the validated
    sequence itself, and the promise at each position is the lookup of
    the entry at that position. *)
Theorem one_lookup_per_validated_entry (E : Env) (p : Payload) :
  lookups (webhook E p) = validated E p /\
  length (promises E p) = length (validated E p) /\
  (forall i a, nth_error (validated E p) i = Some a ->
     nth_error (promises E p) i = Some (tokenInfoPromise E i a)).
Proof.
  split; [|split].
  - unfold validated, candidates, webhook.
    destruct (scan (combinedText E p)) as [|m ms]; [reflexivity|].
    destruct (validAddresses E (m :: ms)); reflexivity.
  - apply tokenInfoPromises_length.
  - intros i a. apply tokenInfoPromises_nth.
Qed.

(** C4 fails as stated: the same address is looked up twice. *)
Lemma duplicate_addresses_are_looked_up_twice :
  lookups (webhook Ref.offline repeated_address_request)
    = [Ref.system_program; Ref.system_program] /\
  ~ one_lookup_per_distinct_address Ref.offline repeated_address_request.
Proof.
  split; [vm_compute; reflexivity|].
  unfold one_lookup_per_distinct_address. vm_compute. discriminate.
Qed.

(** ** Normalisation (C7) *)

(** Every character is replaced by one character, and that character is
    not itself a key of the table. *)
Lemma replace_char_fixed (c : N) :
  exists d, replace_char c = [d] /\ replace_char d = [d].
Proof.
  unfold replace_char at 1. cbn [homoglyphMap lookup].
  repeat match goal with
  | |- context [N.eqb ?k c] =>
      destruct (N.eqb_spec k c) as [<-|?];
      [eexists; split; [reflexivity | vm_compute; reflexivity]|]
  end.
  exists c. split; [reflexivity|].
  unfold replace_char. cbn [homoglyphMap lookup].
  repeat match goal with
  | |- context [N.eqb ?k c] =>
      destruct (N.eqb_spec k c) as [?|?]; [congruence|]
  end.
  reflexivity.
Qed.

Lemma replace_homoglyphs_app (s t : jsstring) :
  replace_homoglyphs (s ++ t) = replace_homoglyphs s ++ replace_homoglyphs t.
Proof.
  unfold replace_homoglyphs. now rewrite map_app, concat_app.
Qed.

Lemma replace_homoglyphs_idempotent (s : jsstring) :
  replace_homoglyphs (replace_homoglyphs s) = replace_homoglyphs s.
Proof.
  induction s as [|c s IH]; [reflexivity|].
  change (replace_homoglyphs (c :: s))
    with (replace_char c ++ replace_homoglyphs s).
  destruct (replace_char_fixed c) as [d [-> Hd]].
  rewrite replace_homoglyphs_app, IH. f_equal.
  unfold replace_homoglyphs. simpl. rewrite Hd. reflexivity.
Qed.

(** C7, as amended: the homoglyph substitution is idempotent, and
    [normalizeText] is idempotent on every string whose normalised form
    is left unchanged by NFKC, that is, when the substitution has not
    put a Latin letter in front of a mark it composes with. *)
Theorem normalizeText_idempotent_when_stable (E : Env) (s : jsstring) :
  normalize_NFKC E (normalizeText E s) = normalizeText E s ->
  normalizeText E (normalizeText E s) = normalizeText E s.
Proof.
  intros H. unfold normalizeText at 1. rewrite H.
  unfold normalizeText. apply replace_homoglyphs_idempotent.
Qed.

(** C7 fails as stated: Cyrillic U+0430 followed by the combining acute
    accent U+0301 is in NFKC form; the substitution turns it into Latin
    [a] followed by U+0301, which a second NFKC pass composes into
    U+00E1. *)
Lemma normalizeText_not_idempotent :
  normalizeText Ref.offline [1072; 769]%N = [97; 769]%N /\
  normalizeText Ref.offline [97; 769]%N = [225]%N /\
  ~ normalizeText_idempotent_at Ref.offline [1072; 769]%N.
Proof.
  split; [|split]; try (vm_compute; reflexivity).
  unfold normalizeText_idempotent_at. vm_compute. discriminate.
Qed.

Lemma normalizeText_idempotent_when_stable_witness :
  normalizeText Ref.offline (normalizeText Ref.offline ([1040; 1042]%N ++ js "c"))
    = js "ABc".
Proof.
  rewrite (normalizeText_idempotent_when_stable Ref.offline
             ([1040; 1042]%N ++ js "c")).
  - vm_compute. reflexivity.
  - vm_compute. reflexivity.
Defined.

(** ** Trade size (C8) *)

(** C8, as amended: the trade size is selected by the user identifier and
    by whether the address contains ["pump"]; for a fixed user, two
    addresses that agree on containing ["pump"] get the same amount. *)
Theorem getAmount_depends_on_user_and_pump (user : option jsstring)
    (a1 a2 : jsstring) :
  includes a1 (js "pump") = includes a2 (js "pump") ->
  getAmount a1 user = getAmount a2 user.
Proof.
  intros H. unfold getAmount. rewrite H. reflexivity.
Qed.

(** C8 fails as stated: for the same user a pump address trades
    500000000 and the USDC mint 1000000000. *)
Lemma getAmount_depends_on_address :
  getAmount Ref.blocked_pump None = 500000000%N /\
  getAmount Ref.USDC None = 1000000000%N /\
  ~ amount_ignores_address None Ref.blocked_pump Ref.USDC.
Proof.
  split; [|split]; try (vm_compute; reflexivity).
  unfold amount_ignores_address. vm_compute. discriminate.
Qed.

Lemma getAmount_depends_on_user_and_pump_witness :
  getAmount Ref.USDC (Some DaniilP86141)
    = getAmount Ref.system_program (Some DaniilP86141).
Proof.
  apply (getAmount_depends_on_user_and_pump (Some DaniilP86141)
           Ref.USDC Ref.system_program).
  vm_compute. reflexivity.
Defined.

(** ** Whitespace in the text sources (C9) *)

Lemma remove_whitespace_app (s t : jsstring) :
  remove_whitespace (s ++ t) = remove_whitespace s ++ remove_whitespace t.
Proof. apply filter_app. Qed.

Lemma remove_whitespace_gap (gap : jsstring) :
  Forall (fun c => isWhitespace c = true) gap -> remove_whitespace gap = [].
Proof.
  induction 1 as [|c gap Hc _ IH]; simpl; [reflexivity|].
  now rewrite Hc.
Qed.

Lemma remove_whitespace_solid (a : jsstring) :
  Forall (fun c => isWhitespace c = false) a -> remove_whitespace a = a.
Proof.
  induction 1 as [|c a Hc _ IH]; simpl; [reflexivity|].
  rewrite Hc. simpl. now rewrite IH.
Qed.

Lemma remove_whitespace_clean (s : jsstring) :
  Forall (fun c => isWhitespace c = false) (remove_whitespace s).
Proof.
  apply Forall_forall. intros c Hc. apply filter_In in Hc.
  destruct Hc as [_ Hc]. now apply negb_true_iff.
Qed.

Lemma combinedText_parts (E : Env) (p : Payload) :
  combinedText E p =
    normalizeText E (fulltext_field p ++ js " " ++ text_field p) ++
    match imageText E p with
    | Some ocr => js " " ++ normalizeText E ocr
    | None => []
    end.
Proof.
  unfold combinedText, imageText.
  destruct (truthy (data_image p)); [|now rewrite app_nil_r].
  destruct (downloadImage E (or_empty (data_image p))) as [b|e]; simpl;
    [|now rewrite app_nil_r].
  destruct (extractTextFromImage E b) as [t|e]; simpl;
    [reflexivity | now rewrite app_nil_r].
Qed.

(** The [text] field reaches the normaliser with every whitespace
    character removed, so two pieces separated by whitespace become
    contiguous; the [full_text] field and the OCR text reach the
    normaliser as they are. *)
Lemma whitespace_removed_from_text_only (E : Env) (p : Payload) :
  Forall (fun c => isWhitespace c = false) (text_field p)
  /\
  (forall pre a1 gap a2 post,
     data_text p = Some (pre ++ a1 ++ gap ++ a2 ++ post) ->
     Forall (fun c => isWhitespace c = false) (a1 ++ a2) ->
     Forall (fun c => isWhitespace c = true) gap ->
     text_field p =
       remove_whitespace pre ++ (a1 ++ a2) ++ remove_whitespace post)
  /\
  fulltext_field p = or_empty (data_full_text p)
  /\
  combinedText E p =
    normalizeText E (or_empty (data_full_text p) ++ js " " ++ text_field p) ++
    match imageText E p with
    | Some ocr => js " " ++ normalizeText E ocr
    | None => []
    end.
Proof.
  split; [|split; [|split]].
  - apply remove_whitespace_clean.
  - intros pre a1 gap a2 post Ht Ha Hg. unfold text_field. rewrite Ht.
    simpl or_empty. apply Forall_app in Ha. destruct Ha as [Ha1 Ha2].
    rewrite !remove_whitespace_app, (remove_whitespace_gap gap Hg),
      (remove_whitespace_solid a1 Ha1), (remove_whitespace_solid a2 Ha2).
    simpl. now rewrite <- app_assoc.
  - reflexivity.
  - apply combinedText_parts.
Qed.

Lemma whitespace_removed_from_text_only_witness :
  text_field split_address_request = Ref.USDC /\
  combinedText (with_image Ref.offline (js "to the moon")) split_address_request
    = js "new token " ++ Ref.USDC ++ js " to the moon".
Proof.
  pose proof (whitespace_removed_from_text_only
                (with_image Ref.offline (js "to the moon"))
                split_address_request) as (_ & Hjoin & _ & Hparts).
  split.
  - rewrite (Hjoin [] (js "EPjFWdd5AufqSSqeM2qN1x") [10; 32]%N
               (js "zybapC8G4wEGGkZwyTDt1v") []).
    + vm_compute. reflexivity.
    + reflexivity.
    + apply Forall_forall. intros c Hc.
      apply (proj1 (forallb_forall (fun c => negb (isWhitespace c)) _)) in Hc;
        [now apply negb_true_iff | vm_compute; reflexivity].
    + repeat constructor.
  - rewrite Hparts. vm_compute. reflexivity.
Defined.

(** ** The [source] field (C10) *)



(** * Further properties of the pipeline *)

(** ** Candidates are pieces of the text *)

Lemma substring_trans (u v w : jsstring) :
  substring u v -> substring v w -> substring u w.
Proof.
  intros [p1 [q1 ->]] [p2 [q2 ->]].
  exists (p2 ++ p1), (q1 ++ q2). now rewrite <- !app_assoc.
Qed.

Lemma substring_cons (u s : jsstring) (c : N) :
  substring u s -> substring u (c :: s).
Proof. intros [p [q ->]]. now exists (c :: p), q. Qed.

Lemma take_class_prefix (n : nat) (s : jsstring) :
  exists post, s = take_class n s ++ post.
Proof.
  revert s; induction n as [|n IH]; intros [|c r]; simpl;
    try (eexists; reflexivity).
  destruct (isBase58 c); [|eexists; reflexivity].
  destruct (IH r) as [post Hp]. exists post. simpl. now rewrite <- Hp.
Qed.

Lemma match_here_prefix (s m : jsstring) :
  match_here s = Some m -> exists post, s = m ++ post.
Proof.
  unfold match_here. pose proof (take_class_prefix 44 s) as [post Hp].
  remember (take_class 44 s) as r eqn:Hr. clear Hr.
  destruct (32 <=? length r); [|discriminate].
  intros Hm. assert (r = m) by congruence. subst r. eauto.
Qed.

Lemma exec_all_substring (s : jsstring) (skip : nat) (m : jsstring) :
  In m (exec_all skip s) -> substring m s.
Proof.
  revert skip; induction s as [|c r IH]; intros skip; simpl; [tauto|].
  destruct skip as [|k].
  - destruct (match_here (c :: r)) as [m'|] eqn:Hm.
    + intros [<-|H].
      * apply match_here_prefix in Hm. destruct Hm as [post Hp].
        exists [], post. exact Hp.
      * apply substring_cons. eapply IH; eassumption.
    + intros H. apply substring_cons. eapply IH; eassumption.
  - intros H. apply substring_cons. eapply IH; eassumption.
Qed.

Lemma window_substring (t : jsstring) (i : nat) : substring (window t i) t.
Proof.
  unfold window, slice. exists (firstn i t), (skipn (i + 45 - i) (skipn i t)).
  now rewrite firstn_skipn, firstn_skipn.
Qed.

Lemma scan_substring (t m : jsstring) : In m (scan t) -> substring m t.
Proof.
  intros H. apply in_scan in H. destruct H as [i [_ Hm]].
  rewrite pushed_exec_all in Hm.
  eapply substring_trans; [eapply exec_all_substring; eassumption|].
  apply window_substring.
Qed.

(** X1: every candidate is a piece of the scanned text, has between 32
    and 44 characters, and consists of Base58 characters only. *)
Theorem candidates_are_address_shaped_substrings (t m : jsstring) :
  In m (scan t) -> address_shape m /\ substring m t.
Proof.
  intros H. split.
  - exact (scan_shape t m H).
  - exact (scan_substring t m H).
Qed.

Lemma candidates_are_address_shaped_substrings_witness :
  address_shape Ref.USDC /\ substring Ref.USDC (js "buy " ++ Ref.USDC).
Proof.
  apply (candidates_are_address_shaped_substrings (js "buy " ++ Ref.USDC)).
  vm_compute. right. right. right. right. left. reflexivity.
Defined.

(** ** When the scanner finds something *)

Lemma match_here_run (u post : jsstring) :
  address_shape u -> exists m, match_here (firstn 45 (u ++ post)) = Some m.
Proof.
  intros [[Hlo Hhi] Hall]. unfold match_here.
  rewrite firstn_app, firstn_all2 by lia.
  rewrite take_class_app by (auto; lia).
  remember (take_class (44 - length u) (firstn (45 - length u) post)) as r.
  destruct (Nat.leb_spec 32 (length (u ++ r))) as [_|H]; [eauto|].
  rewrite length_app in H. lia.
Qed.

Lemma pushed_head (t : jsstring) (i : nat) (m : jsstring)
    (l : list jsstring) :
  exec_all 0 (window t i) = m :: l -> pushed t i = [m].
Proof.
  intros H. unfold pushed, String_match. now rewrite H.
Qed.

(** X2: the scanner yields at least one candidate exactly when the text
    contains a run of 32 to 44 Base58 characters. *)
Theorem scan_nonempty_iff (t : jsstring) :
  scan t <> [] <-> exists u, address_shape u /\ substring u t.
Proof.
  split.
  - destruct (scan t) as [|m l] eqn:Hs; [congruence|]. intros _.
    assert (Hm : In m (scan t)) by (rewrite Hs; now left).
    exists m. split; [exact (scan_shape t m Hm) | exact (scan_substring t m Hm)].
  - intros [u [Hu [pre [post ->]]]] Hs.
    destruct (match_here_run u post Hu) as [m Hm].
    assert (Hin : In m (scan (pre ++ u ++ post))).
    { apply in_scan. exists (length pre). split.
      - destruct Hu as [[Hlo _] _]. rewrite !length_app. lia.
      - assert (Hw : exists l, exec_all 0 (window (pre ++ u ++ post) (length pre))
                               = m :: l).
        { rewrite window_at.
          destruct (firstn 45 (u ++ post)) as [|c r] eqn:Hf.
          - unfold match_here in Hm. simpl in Hm. discriminate.
          - simpl. rewrite Hm. eauto. }
        destruct Hw as [l Hl]. rewrite (pushed_head _ _ _ _ Hl). now left. }
    rewrite Hs in Hin. destruct Hin.
Qed.

(** ** How many candidates *)

Lemma pushed_length (t : jsstring) (i : nat) : length (pushed t i) <= 1.
Proof.
  rewrite pushed_exec_all. apply exec_all_at_most_one.
  pose proof (window_length t i). lia.
Qed.

Lemma pushed_near_end (t : jsstring) (i : nat) :
  length t < i + 32 -> pushed t i = [].
Proof.
  intros H. rewrite pushed_exec_all. apply exec_all_short.
  unfold window, slice. rewrite length_firstn, length_skipn. lia.
Qed.

Lemma flat_map_seq_bound (f : nat -> list jsstring) (k n : nat) :
  (forall i, length (f i) <= 1) ->
  (forall i, k <= i -> f i = []) ->
  length (flat_map f (seq 0 n)) <= Nat.min n k.
Proof.
  intros H1 Hk. induction n as [|n IH]; [simpl; lia|].
  rewrite seq_S, flat_map_app, length_app.
  change (flat_map f [0 + n]) with (f n ++ []). rewrite app_nil_r.
  destruct (Nat.le_gt_cases k n) as [Hle|Hgt].
  - rewrite (Hk n Hle). cbn [length]. lia.
  - specialize (H1 n). lia.
Qed.

(** X3: a text of [n] characters yields at most [n - 31] candidates; in
    particular a text shorter than 32 characters yields none. *)
Theorem scan_length_bound (t : jsstring) :
  length (scan t) <= length t - 31.
Proof.
  rewrite scan_flat_map.
  pose proof (flat_map_seq_bound (pushed t) (length t - 31) (length t)
                (pushed_length t)) as H.
  assert (Hend : forall i, length t - 31 <= i -> pushed t i = []).
  { intros i Hi. apply pushed_near_end. lia. }
  specialize (H Hend). lia.
Qed.

(** ** The separator doubles a candidate *)

Lemma match_here_after_separator (a post : jsstring) :
  address_shape a -> right_delimited a post ->
  match_here (firstn 44 (a ++ post)) = Some a.
Proof.
  intros [[Hlo Hhi] Hall] Hd. unfold match_here.
  assert (Ht : take_class 44 (firstn 44 (a ++ post)) = a).
  { rewrite firstn_app, firstn_all2 by lia.
    rewrite take_class_app by (auto; lia).
    assert (Hz : take_class (44 - length a) (firstn (44 - length a) post) = []).
    { destruct Hd as [H44|Hp].
      - rewrite H44. reflexivity.
      - destruct post as [|c post].
        + rewrite firstn_nil. now destruct (44 - length a).
        + destruct (44 - length a) as [|k]; [reflexivity|].
          simpl. now rewrite Hp. }
    rewrite Hz. apply app_nil_r. }
  rewrite Ht. destruct (Nat.leb_spec 32 (length a)); [reflexivity | lia].
Qed.

Lemma nonempty_of_shape (a : jsstring) :
  address_shape a -> exists c r, a = c :: r.
Proof.
  intros [[Hlo _] _]. destruct a as [|c r]; [simpl in Hlo; lia | eauto].
Qed.

Lemma pushed_at_address (pre a post : jsstring) :
  address_shape a -> right_delimited a post ->
  pushed (pre ++ a ++ post) (length pre) = [a].
Proof.
  intros Hs Hd. pose proof (match_here_delimited a post Hs Hd) as Hm.
  destruct (nonempty_of_shape a Hs) as [c [r Ha]].
  apply (pushed_head _ _ a (exec_all (length a - 1)
                              (tl (firstn 45 (a ++ post))))).
  rewrite window_at.
  destruct (firstn 45 (a ++ post)) as [|c' r'] eqn:Hf.
  - unfold match_here in Hm. simpl in Hm. discriminate.
  - simpl. now rewrite Hm.
Qed.

Lemma pushed_before_address (pre : jsstring) (c : N) (a post : jsstring) :
  isBase58 c = false ->
  address_shape a -> right_delimited a post ->
  pushed (pre ++ c :: a ++ post) (length pre) = [a].
Proof.
  intros Hc Hs Hd.
  pose proof (match_here_after_separator a post Hs Hd) as Hm.
  destruct (nonempty_of_shape a Hs) as [c0 [r0 Ha]].
  apply (pushed_head _ _ a (exec_all (length a - 1)
                              (tl (firstn 44 (a ++ post))))).
  rewrite window_at. change (firstn 45 (c :: a ++ post))
    with (c :: firstn 44 (a ++ post)).
  assert (Hn : match_here (c :: firstn 44 (a ++ post)) = None).
  { unfold match_here. simpl. now rewrite Hc. }
  cbn [exec_all]. rewrite Hn.
  destruct (firstn 44 (a ++ post)) as [|c' r'] eqn:Hf.
  - unfold match_here in Hm. simpl in Hm. discriminate.
  - cbn [exec_all tl]. now rewrite Hm.
Qed.

(** X4: an address that follows a character outside the Base58 class
    (such as the separator the handler puts between the text sources)
    and is right-delimited is pushed twice in a row, once by the window
    that starts at the preceding character and once by its own. *)
Theorem address_after_separator_is_pushed_twice
    (pre : jsstring) (c : N) (a post : jsstring) :
  isBase58 c = false ->
  address_shape a ->
  right_delimited a post ->
  exists l1 l2, scan (pre ++ c :: a ++ post) = l1 ++ a :: a :: l2.
Proof.
  intros Hc Hs Hd.
  set (t := pre ++ c :: a ++ post).
  set (i := length pre).
  assert (Ht : length t = i + S (S (length t - i - 2))).
  { unfold t, i. rewrite length_app. simpl. rewrite length_app.
    destruct Hs as [[Hlo _] _]. lia. }
  rewrite scan_flat_map, Ht, seq_app, flat_map_app. simpl seq.
  exists (flat_map (pushed t) (seq 0 i)),
         (flat_map (pushed t) (seq (S (S i)) (length t - i - 2))).
  f_equal. cbn [flat_map].
  unfold t at 1, i at 1. rewrite (pushed_before_address pre c a post Hc Hs Hd).
  replace (pushed t (S i)) with [a]; [reflexivity|].
  symmetry. unfold t, i.
  change (pre ++ c :: a ++ post) with (pre ++ [c] ++ a ++ post).
  rewrite app_assoc.
  replace (S (length pre)) with (length (pre ++ [c]))
    by (rewrite length_app; simpl; lia).
  apply pushed_at_address; assumption.
Qed.

Lemma address_after_separator_is_pushed_twice_witness :
  exists l1 l2,
    scan (js "gm" ++ 32%N :: Ref.USDC ++ js " now")
      = l1 ++ Ref.USDC :: Ref.USDC :: l2.
Proof.
  apply (address_after_separator_is_pushed_twice (js "gm") 32%N Ref.USDC
           (js " now")).
  - reflexivity.
  - apply address_shapeb_spec. vm_compute. reflexivity.
  - left. vm_compute. reflexivity.
Defined.

(** ** What the homoglyph table leaves behind *)

Lemma replace_char_not_key (c : N) :
  exists d, replace_char c = [d] /\ lookup homoglyphMap d = None.
Proof.
  unfold replace_char. cbn [homoglyphMap lookup].
  repeat match goal with
  | |- context [N.eqb ?k c] =>
      destruct (N.eqb_spec k c) as [<-|?];
      [eexists; split; [reflexivity | vm_compute; reflexivity]|]
  end.
  exists c. split; [reflexivity|].
  cbn [homoglyphMap lookup].
  repeat match goal with
  | |- context [N.eqb ?k c] =>
      destruct (N.eqb_spec k c) as [?|?]; [congruence|]
  end.
  reflexivity.
Qed.

(** X5: the substitution replaces code unit by code unit, so the length
    is kept, and no key of the homoglyph table is left in its result. *)
Theorem replace_homoglyphs_removes_keys (s : jsstring) :
  length (replace_homoglyphs s) = length s /\
  Forall (fun c => lookup homoglyphMap c = None) (replace_homoglyphs s).
Proof.
  induction s as [|c s [IHl IHf]]; [split; [reflexivity | constructor]|].
  change (replace_homoglyphs (c :: s))
    with (replace_char c ++ replace_homoglyphs s).
  destruct (replace_char_not_key c) as [d [-> Hd]]. split.
  - simpl. now rewrite IHl.
  - constructor; assumption.
Qed.

Lemma replace_char_below_table (c : N) :
  (c < 918)%N -> replace_char c = [c].
Proof.
  intros Hc. unfold replace_char. cbn [homoglyphMap lookup].
  repeat match goal with
  | |- context [N.eqb ?k c] =>
      destruct (N.eqb_spec k c) as [?|?]; [lia|]
  end.
  reflexivity.
Qed.

(** X6: text made of code units below 128 (ASCII) goes through the
    homoglyph substitution unchanged, so on such NFKC output
    [normalizeText] is NFKC alone. *)
Theorem normalizeText_on_ascii (E : Env) (s : jsstring) :
  Forall (fun c => (c < 128)%N) (normalize_NFKC E s) ->
  normalizeText E s = normalize_NFKC E s.
Proof.
  unfold normalizeText. generalize (normalize_NFKC E s). intros r H.
  induction H as [|c r Hc _ IH]; [reflexivity|].
  change (replace_homoglyphs (c :: r))
    with (replace_char c ++ replace_homoglyphs r).
  rewrite replace_char_below_table by lia. rewrite IH. reflexivity.
Qed.

Lemma normalizeText_on_ascii_witness :
  normalizeText Ref.offline Ref.USDC = Ref.USDC.
Proof.
  apply (normalizeText_on_ascii Ref.offline Ref.USDC).
  apply Forall_forall. intros c Hc.
  apply (proj1 (forallb_forall (fun c => N.ltb c 128) _)) in Hc;
    [now apply N.ltb_lt | vm_compute; reflexivity].
Defined.

(** ** Metadata lookup *)

Lemma getTokenInfo_some (E : Env) (pos : nat) (a : jsstring)
    (info : TokenInfo) :
  getTokenInfo E pos a = Some info ->
  exists mint mi,
    PublicKey_new E a = Ok mint /\
    getMintInfo E pos mint = Ok mi /\
    mint_decimals mi <> 0%N /\
    info = {| address := a;
              decimals := mint_decimals mi;
              supply := mint_supply mi;
              isInitialized := mint_isInitialized mi |}.
Proof.
  unfold getTokenInfo.
  destruct (PublicKey_new E a) as [mint|e]; simpl; [|discriminate].
  destruct (getMintInfo E pos mint) as [mi|e] eqn:Hmi; simpl; [|discriminate].
  destruct (N.eqb_spec (mint_decimals mi) 0) as [Hz|Hz]; simpl;
    [discriminate|].
  intros [= <-]. exists mint, mi. auto.
Qed.

(** X8: [getTokenInfo] gives a token exactly when the address decodes,
    the mint account is read and its decimals are not zero; the token
    then carries the queried address and the data of the account. *)
Theorem getTokenInfo_some_iff (E : Env) (pos : nat) (a : jsstring)
    (info : TokenInfo) :
  getTokenInfo E pos a = Some info <->
  exists mint mi,
    PublicKey_new E a = Ok mint /\
    getMintInfo E pos mint = Ok mi /\
    mint_decimals mi <> 0%N /\
    info = {| address := a;
              decimals := mint_decimals mi;
              supply := mint_supply mi;
              isInitialized := mint_isInitialized mi |}.
Proof.
  split; [apply getTokenInfo_some|]. unfold getTokenInfo.
  - intros (mint & mi & -> & Hmi & Hd & ->). simpl. rewrite Hmi. simpl.
    destruct (N.eqb_spec (mint_decimals mi) 0); [contradiction | reflexivity].
Qed.

(** ** The race *)

Lemma first_fulfilled_sound (ps : list Settled)
    (best : option (nat * TokenInfo)) (t : nat) (v : TokenInfo) :
  first_fulfilled best ps = Some (t, v) ->
  (best = Some (t, v) \/ In (t, Ok v) ps) /\
  (forall t' v', best = Some (t', v') \/ In (t', Ok v') ps -> t <= t').
Proof.
  revert best; induction ps as [|[t1 [v1|e]] ps IH]; intros best; simpl.
  - intros ->. split; [now left|].
    intros t' v' [[= -> ->]|[]]. lia.
  - destruct best as [[t0 v0]|].
    + destruct (Nat.ltb_spec t1 t0) as [Hlt|Hge]; intros H;
        apply IH in H; destruct H as [Hin Hmin].
      * pose proof (Hmin t1 v1 (or_introl eq_refl)) as H1. split.
        -- destruct Hin as [[= -> ->]|Hin]; auto.
        -- intros t' v' [[= <- <-]|[[= <- <-]|Hr]];
             [lia | lia | apply (Hmin t' v'); now right].
      * pose proof (Hmin t0 v0 (or_introl eq_refl)) as H0. split.
        -- destruct Hin as [Hin|Hin]; auto.
        -- intros t' v' [[= <- <-]|[[= <- <-]|Hr]];
             [lia | lia | apply (Hmin t' v'); now right].
    + intros H. apply IH in H. destruct H as [Hin Hmin].
      pose proof (Hmin t1 v1 (or_introl eq_refl)) as H1. split.
      * destruct Hin as [[= -> ->]|Hin]; auto.
      * intros t' v' [[=]|[[= <- <-]|Hr]];
          [lia | apply (Hmin t' v'); now right].
  - intros H. apply IH in H. destruct H as [Hin Hmin]. split.
    + destruct Hin as [Hin|Hin]; auto.
    + intros t' v' [Hb|[[=]|Hr]];
        [apply (Hmin t' v'); now left | apply (Hmin t' v'); now right].
Qed.

(** X9: when [Promise.any] is fulfilled, its value is the value of one of
    the fulfilled promises, and no fulfilled promise settled earlier. *)
Theorem Promise_any_earliest (ps : list Settled) (v : TokenInfo) :
  Promise_any ps = Ok v ->
  exists t, In (t, Ok v) ps /\
            forall t' v', In (t', Ok v') ps -> t <= t'.
Proof.
  unfold Promise_any.
  destruct (first_fulfilled None ps) as [[t w]|] eqn:Hf; [|discriminate].
  intros [= ->]. apply first_fulfilled_sound in Hf.
  destruct Hf as [[[=]|Hin] Hmin]. exists t. split; [assumption|].
  intros t' v' H. apply (Hmin t' v'). now right.
Qed.

Lemma Promise_any_earliest_witness :
  exists t,
    In (t, Ok {| address := Ref.USDC; decimals := 6; supply := 1;
                 isInitialized := true |})
       [ (5, Throw "No token info found");
         (3, Ok {| address := Ref.system_program; decimals := 9; supply := 1;
                   isInitialized := true |});
         (1, Ok {| address := Ref.USDC; decimals := 6; supply := 1;
                   isInitialized := true |}) ] /\
    forall t' v',
      In (t', Ok v')
         [ (5, Throw "No token info found");
           (3, Ok {| address := Ref.system_program; decimals := 9;
                     supply := 1; isInitialized := true |});
           (1, Ok {| address := Ref.USDC; decimals := 6; supply := 1;
                     isInitialized := true |}) ] -> t <= t'.
Proof.
  apply (Promise_any_earliest
           [ (5, Throw "No token info found");
             (3, Ok {| address := Ref.system_program; decimals := 9;
                       supply := 1; isInitialized := true |});
             (1, Ok {| address := Ref.USDC; decimals := 6; supply := 1;
                       isInitialized := true |}) ]).
  vm_compute. reflexivity.
Defined.

Lemma first_fulfilled_some (ps : list Settled) (b : nat * TokenInfo) :
  exists b', first_fulfilled (Some b) ps = Some b'.
Proof.
  revert b; induction ps as [|[t1 [v1|e]] ps IH]; intros [t0 v0]; simpl;
    eauto.
  destruct (t1 <? t0); apply IH.
Qed.

(** X10: [Promise.any] rejects exactly when every promise is rejected;
    in particular it rejects on no promise at all. *)
Theorem Promise_any_rejects_iff (ps : list Settled) :
  (exists e, Promise_any ps = Throw e) <-> Forall rejected ps.
Proof.
  split.
  - intros [e He]. unfold Promise_any in He.
    induction ps as [|[t [v|e']] ps IH]; [constructor| |].
    + simpl in He. destruct (first_fulfilled_some ps (t, v)) as [[t' v'] Hb].
      rewrite Hb in He. discriminate.
    + constructor; [eexists; reflexivity | apply IH; exact He].
  - intros H. eexists. apply Promise_any_all_rejected. exact H.
Qed.

Lemma in_tokenInfoPromises (E : Env) (l : list jsstring) (t : nat)
    (v : TokenInfo) :
  In (t, Ok v) (tokenInfoPromises E l) ->
  exists pos a, In a l /\ getTokenInfo E pos a = Some v.
Proof.
  unfold tokenInfoPromises. rewrite in_map_iff.
  intros [[pos a] [Heq Hin]]. apply in_combine_r in Hin.
  exists pos, a. split; [assumption|].
  unfold tokenInfoPromise in Heq. simpl in Heq.
  destruct (getTokenInfo E pos a); [congruence | discriminate].
Qed.

Lemma Promise_any_fulfilled_in (ps : list Settled) (v : TokenInfo) :
  Promise_any ps = Ok v -> exists t, In (t, Ok v) ps.
Proof.
  unfold Promise_any.
  destruct (first_fulfilled None ps) as [[t w]|] eqn:Hf; [|discriminate].
  intros [= ->]. apply first_fulfilled_sound in Hf.
  destruct Hf as [[[=]|Hin] _]. eauto.
Qed.

(** X11: the token that wins the race is the token of one of the
    addresses handed to the resolver, and its decimals are not zero. *)
Theorem resolved_token_is_a_queried_address (E : Env) (l : list jsstring)
    (info : TokenInfo) :
  Promise_any (tokenInfoPromises E l) = Ok info ->
  In (address info) l /\ decimals info <> 0%N.
Proof.
  intros H. apply Promise_any_fulfilled_in in H. destruct H as [t Hin].
  apply in_tokenInfoPromises in Hin. destruct Hin as (pos & a & Ha & Hg).
  apply getTokenInfo_some in Hg.
  destruct Hg as (mint & mi & _ & _ & Hd & ->). simpl. auto.
Qed.

Lemma resolved_token_is_a_queried_address_witness :
  In Ref.USDC [Ref.USDC; Ref.system_program] /\ 6%N <> 0%N.
Proof.
  exact (resolved_token_is_a_queried_address
           Ref.online [Ref.USDC; Ref.system_program]
           {| address := Ref.USDC; decimals := 6; supply := 1000000;
              isInitialized := true |}
           (eq_refl : Promise_any
                        (tokenInfoPromises Ref.online
                           [Ref.USDC; Ref.system_program])
                      = Ok {| address := Ref.USDC; decimals := 6;
                              supply := 1000000; isInitialized := true |})).
Defined.

(** ** The trade *)

Lemma fee_level_of_priorityLevel (user : option jsstring) :
  (if jsstring_eqb (priorityLevel user) (js "veryHigh") then js "extreme"
   else priorityLevel user) = sent_fee_level user.
Proof.
  unfold priorityLevel, sent_fee_level.
  destruct (is_user user DaniilP86141); reflexivity.
Qed.

(** X12: with the priority level the handler chooses, [getPumpTx] asks the
    swap endpoint for the fee level "medium" for the user DaniilP86141 and
    "extreme" for everybody else; "veryHigh" is never sent. An empty
    address is refused before any request. *)
Theorem getPumpTx_fee_level (E : Env) (a amount : jsstring)
    (user : option jsstring) :
  getPumpTx E a amount (priorityLevel user) =
    match a with
    | [] => Throw "Address is required"
    | _ :: _ => pump_swap E a amount (sent_fee_level user)
    end
  /\ sent_fee_level user <> js "veryHigh".
Proof.
  split.
  - unfold getPumpTx. destruct a as [|c r]; [reflexivity|].
    now rewrite fee_level_of_priorityLevel.
  - unfold sent_fee_level. destruct (is_user user DaniilP86141); discriminate.
Qed.

Lemma getPumpTx_of_address (E : Env) (a amount : jsstring)
    (user : option jsstring) :
  address_shape a ->
  getPumpTx E a amount (priorityLevel user)
    = pump_swap E a amount (sent_fee_level user).
Proof.
  intros Hs. destruct (nonempty_of_shape a Hs) as [c [r ->]].
  unfold getPumpTx. now rewrite fee_level_of_priorityLevel.
Qed.

Lemma lookups_validated (E : Env) (p : Payload) :
  lookups (webhook E p) = validated E p.
Proof.
  unfold validated, candidates, webhook.
  destruct (scan (combinedText E p)) as [|m ms]; [reflexivity|].
  destruct (validAddresses E (m :: ms)); reflexivity.
Qed.

Lemma validated_facts (E : Env) (p : Payload) (a : jsstring) :
  In a (validated E p) ->
  address_shape a /\ substring a (combinedText E p) /\
  isValidSolanaAddress E a = true /\ blocked E a = false.
Proof.
  unfold validated, candidates. intros H. apply In_validAddresses in H.
  destruct H as (Hs & Hv & Hb).
  repeat split; auto; try (apply (scan_shape _ _ Hs)).
  exact (scan_substring _ _ Hs).
Qed.

(** X13: every address for which a metadata lookup is launched is a piece
    of the combined text of 32 to 44 Base58 characters that the validator
    accepts and the block list does not contain. *)
Theorem lookups_are_validated_candidates (E : Env) (p : Payload)
    (a : jsstring) :
  In a (lookups (webhook E p)) ->
  address_shape a /\ substring a (combinedText E p) /\
  isValidSolanaAddress E a = true /\ blocked E a = false.
Proof.
  rewrite lookups_validated. apply validated_facts.
Qed.

Lemma lookups_are_validated_candidates_witness :
  address_shape Ref.system_program /\
  substring Ref.system_program
    (combinedText Ref.offline system_program_request) /\
  isValidSolanaAddress Ref.offline Ref.system_program = true /\
  blocked Ref.offline Ref.system_program = false.
Proof.
  apply (lookups_are_validated_candidates Ref.offline system_program_request).
  vm_compute. left. reflexivity.
Defined.

(** X14: when lookups were launched and the response is a success, a swap
    was built for a validated address whose mint has non-zero decimals,
    with the amount [getAmount] gives for that address and user and the
    fee level of the user; the transaction was signed, sent and
    confirmed, and the response is the final one. *)
Theorem success_after_lookups_means_trade (E : Env) (p : Payload) :
  lookups (webhook E p) <> [] ->
  status (response (webhook E p)) = "success"%string ->
  exists info tx signed latestBlockHash txid,
    Promise_any (promises E p) = Ok info /\
    In (address info) (validated E p) /\
    decimals info <> 0%N /\
    pump_swap E (address info)
      (Number_toString (getAmount (address info) (task_user p)))
      (sent_fee_level (task_user p)) = Ok tx /\
    sign E tx = Ok signed /\
    getLatestBlockhash E = Ok latestBlockHash /\
    sendRawTransaction E signed = Ok txid /\
    confirmTransaction E latestBlockHash txid = Ok tt /\
    response (webhook E p) = processed_response p.
Proof.
  rewrite lookups_validated. unfold promises.
  pose proof (validated_facts E p) as Hfacts.
  unfold validated, candidates in *. unfold webhook.
  destruct (scan (combinedText E p)) as [|m ms]; [intros H; now destruct H|].
  destruct (validAddresses E (m :: ms)) as [|a l] eqn:Hv;
    [intros H; now destruct H|].
  intros _. cbn [response]. unfold dispatch.
  destruct (Promise_any (tokenInfoPromises E (a :: l))) as [info|e] eqn:Hp;
    cbn [bind try_catch]; [|discriminate].
  destruct (Promise_any_fulfilled_in _ _ Hp) as [t Hin].
  apply in_tokenInfoPromises in Hin. destruct Hin as (pos & a' & Ha' & Hg).
  apply getTokenInfo_some in Hg. destruct Hg as (mint & mi & _ & _ & Hd & Hinfo).
  assert (Haddr : address info = a') by (subst info; reflexivity).
  assert (Hdec : decimals info <> 0%N) by (subst info; exact Hd).
  clear Hinfo. rewrite <- Haddr in Ha'.
  destruct (Hfacts _ Ha') as (Hshape & _).
  rewrite (getPumpTx_of_address E _ _ (task_user p) Hshape).
  destruct (pump_swap E (address info)
              (Number_toString (getAmount (address info) (task_user p)))
              (sent_fee_level (task_user p))) as [tx|e] eqn:Htx;
    cbn [bind try_catch]; [|discriminate].
  destruct (sign E tx) as [signed|e] eqn:Hsign;
    cbn [bind try_catch]; [|discriminate].
  destruct (getLatestBlockhash E) as [bh|e] eqn:Hbh;
    cbn [bind try_catch]; [|discriminate].
  destruct (sendRawTransaction E signed) as [txid|e] eqn:Hsend;
    cbn [bind try_catch]; [|discriminate].
  destruct (confirmTransaction E bh txid) as [[]|e] eqn:Hconf;
    cbn [bind try_catch]; [|discriminate].
  intros _. exists info, tx, signed, bh, txid. repeat split; auto.
Qed.

Lemma success_after_lookups_means_trade_witness :
  exists info tx signed latestBlockHash txid,
    Promise_any (promises Ref.online system_program_request) = Ok info /\
    In (address info) (validated Ref.online system_program_request) /\
    decimals info <> 0%N /\
    pump_swap Ref.online (address info)
      (Number_toString
         (getAmount (address info) (task_user system_program_request)))
      (sent_fee_level (task_user system_program_request)) = Ok tx /\
    sign Ref.online tx = Ok signed /\
    getLatestBlockhash Ref.online = Ok latestBlockHash /\
    sendRawTransaction Ref.online signed = Ok txid /\
    confirmTransaction Ref.online latestBlockHash txid = Ok tt /\
    response (webhook Ref.online system_program_request)
      = processed_response system_program_request.
Proof.
  apply (success_after_lookups_means_trade Ref.online system_program_request).
  - vm_compute. discriminate.
  - vm_compute. reflexivity.
Defined.

(** ** Which response is sent *)

(** X15: for a request body whose [text], [full_text] and [image] are
    strings or absent (the bodies [Payload] describes), "No valid token
    addresses found" is sent exactly when the scanner found candidates
    and none of them was validated, and the error response (status 500)
    is only sent after at least one lookup was launched. *)
Theorem response_cases (E : Env) (p : Payload) :
  (response (webhook E p) = no_valid_response <->
   candidates E p <> [] /\ validated E p = [])
  /\
  (http_status (response (webhook E p)) = 500%N -> lookups (webhook E p) <> []).
Proof.
  unfold validated, candidates, webhook.
  destruct (scan (combinedText E p)) as [|m ms].
  - split; [split|]; cbn; [discriminate | intros [H _]; now destruct H
                           | discriminate].
  - destruct (validAddresses E (m :: ms)) as [|a l].
    + split; [split|]; cbn; [split; [discriminate | reflexivity]
                            | reflexivity | discriminate].
    + split; [split|]; cbn [response lookups];
        [| intros [_ H]; discriminate H | discriminate].
      destruct (dispatch E p (tokenInfoPromises E (a :: l))) as [[]|e]; cbn;
        discriminate.
Qed.

(** X16: a request whose combined text holds no run of 32 Base58
    characters launches no lookup and gets the final success response. *)
Theorem no_base58_run_no_lookup (E : Env) (p : Payload) :
  (forall u, address_shape u -> ~ substring u (combinedText E p)) ->
  webhook E p = {| lookups := []; response := processed_response p |}.
Proof.
  intros H. unfold webhook.
  destruct (scan (combinedText E p)) as [|m ms] eqn:Hs; [reflexivity|].
  assert (Hm : In m (scan (combinedText E p))) by (rewrite Hs; now left).
  destruct (H m (scan_shape _ _ Hm) (scan_substring _ _ Hm)).
Qed.

Lemma substring_length (u w : jsstring) :
  substring u w -> length u <= length w.
Proof. intros [pre [post ->]]. rewrite !length_app. lia. Qed.

Lemma no_base58_run_no_lookup_witness :
  webhook Ref.online unreadable_image_request
    = {| lookups := [];
         response := processed_response unreadable_image_request |}.
Proof.
  apply (no_base58_run_no_lookup Ref.online unreadable_image_request).
  intros u [[Hlo _] _] Hsub. apply substring_length in Hsub.
  change (length (combinedText Ref.online unreadable_image_request))
    with 3 in Hsub. lia.
Defined.

(** ** Trade sizes *)

Lemma starts_with_spec (p s : jsstring) :
  starts_with p s = true <-> exists post, s = p ++ post.
Proof.
  revert s; induction p as [|x p IH]; intros s; simpl.
  - split; [intros _; now exists s | reflexivity].
  - destruct s as [|y s]; [split; [discriminate | intros [post H]; discriminate]|].
    rewrite andb_true_iff, N.eqb_eq, IH. split.
    + intros [-> [post ->]]. now exists post.
    + intros [post [= -> ->]]. split; [reflexivity | now exists post].
Qed.

Lemma includes_spec (s p : jsstring) :
  includes s p = true <-> substring p s.
Proof.
  induction s as [|c s IH]; simpl.
  - rewrite orb_false_r, starts_with_spec. split.
    + intros [post H]. now exists [], post.
    + intros [[|x pre] [post H]]; [now exists post | discriminate].
  - rewrite orb_true_iff, starts_with_spec, IH. split.
    + intros [[post H]|H]; [now exists [], post | now apply substring_cons].
    + intros [[|x pre] [post H]]; [left; now exists post|].
      right. injection H as _ ->. now exists pre, post.
Qed.

(** X17: the amount is one of four constants, between 100000 and
    1000000000; the user DaniilP86141 never trades more than 10000000 and
    every other user never less than 500000000. *)
Theorem getAmount_bounds (a : jsstring) (user : option jsstring) :
  (100000 <= getAmount a user <= 1000000000)%N /\
  (is_user user DaniilP86141 = true -> (getAmount a user <= 10000000)%N) /\
  (is_user user DaniilP86141 = false -> (500000000 <= getAmount a user)%N).
Proof.
  unfold getAmount.
  destruct (is_user user DaniilP86141), (includes a (js "pump"));
    repeat split; intros; try discriminate; lia.
Qed.

(** X18: the smaller of the two amounts of a user is chosen exactly when
    the address contains "pump" somewhere, not only at its end. *)
Theorem pump_amount_iff_contains_pump (a : jsstring)
    (user : option jsstring) :
  getAmount a user
    = (if is_user user DaniilP86141 then 10000000 else 500000000)%N
  <-> substring (js "pump") a.
Proof.
  rewrite <- includes_spec. unfold getAmount.
  destruct (is_user user DaniilP86141), (includes a (js "pump"));
    split; intros H; try reflexivity; discriminate.
Qed.

(** ** Images *)

Lemma combinedText_without_image (E : Env) (p : Payload) :
  imageText E p = None ->
  combinedText E p = combinedText E (without_image p).
Proof.
  intros H. rewrite combinedText_parts, H, app_nil_r. reflexivity.
Qed.

(** X19: when the image cannot be downloaded or read, or there is none,
    the request is handled as the same request without the image: the
    same combined text, the same lookups and the same status. *)
Theorem image_failure_is_ignored (E : Env) (p : Payload) :
  imageText E p = None ->
  combinedText E p = combinedText E (without_image p) /\
  lookups (webhook E p) = lookups (webhook E (without_image p)) /\
  http_status (response (webhook E p))
    = http_status (response (webhook E (without_image p))) /\
  message (response (webhook E p))
    = message (response (webhook E (without_image p))).
Proof.
  intros H. pose proof (combinedText_without_image E p H) as Hc.
  split; [exact Hc|]. unfold webhook. rewrite <- Hc.
  destruct (scan (combinedText E p)) as [|m ms]; [repeat split|].
  destruct (validAddresses E (m :: ms)) as [|a l]; [repeat split|].
  cbn [lookups response].
  change (dispatch E (without_image p)) with (dispatch E p).
  destruct (dispatch E p (tokenInfoPromises E (a :: l))) as [[]|e];
    repeat split.
Qed.

Lemma image_failure_is_ignored_witness :
  combinedText Ref.offline unreadable_image_request
    = combinedText Ref.offline (without_image unreadable_image_request) /\
  lookups (webhook Ref.offline unreadable_image_request)
    = lookups (webhook Ref.offline (without_image unreadable_image_request)) /\
  http_status (response (webhook Ref.offline unreadable_image_request))
    = http_status
        (response (webhook Ref.offline
                     (without_image unreadable_image_request))) /\
  message (response (webhook Ref.offline unreadable_image_request))
    = message
        (response (webhook Ref.offline
                     (without_image unreadable_image_request))).
Proof.
  apply (image_failure_is_ignored Ref.offline unreadable_image_request).
  vm_compute. reflexivity.
Defined.

(** X20: an address in the normalised text of the image, right-delimited
    there, is among the candidates of the request, whatever the other
    text sources hold. *)
Theorem address_in_image_is_a_candidate (E : Env) (p : Payload)
    (ocr pre a post : jsstring) :
  imageText E p = Some ocr ->
  normalizeText E ocr = pre ++ a ++ post ->
  address_shape a ->
  right_delimited a post ->
  In a (candidates E p).
Proof.
  intros Hi Hn Hs Hd. unfold candidates.
  rewrite combinedText_parts, Hi, Hn.
  set (base := normalizeText E (fulltext_field p ++ js " " ++ text_field p)).
  replace (base ++ js " " ++ pre ++ a ++ post)
    with ((base ++ js " " ++ pre) ++ a ++ post)
    by (now rewrite <- !app_assoc).
  set (before := base ++ js " " ++ pre).
  apply in_scan. exists (length before). split.
  - destruct Hs as [[Hlo _] _]. rewrite !length_app. lia.
  - rewrite (pushed_at_address before a post Hs Hd). now left.
Qed.

Lemma address_in_image_is_a_candidate_witness :
  In Ref.USDC
     (candidates (with_image Ref.offline (js "CA: " ++ Ref.USDC))
        unreadable_image_request).
Proof.
  apply (address_in_image_is_a_candidate
           (with_image Ref.offline (js "CA: " ++ Ref.USDC))
           unreadable_image_request
           (js "CA: " ++ Ref.USDC) (js "CA: ") Ref.USDC []).
  - vm_compute. reflexivity.
  - vm_compute. reflexivity.
  - apply address_shapeb_spec. vm_compute. reflexivity.
  - left. vm_compute. reflexivity.
Defined.

(** ** Text sources next to an image *)

Lemma combinedText_text_image (E : Env) (p : Payload) :
  combinedText E p = text_part E p ++ image_part E p.
Proof. apply combinedText_parts. Qed.

(** The separator keeps an address at the end of the text sources
    delimited when an image text follows. *)
Lemma right_delimited_before_image (E : Env) (p : Payload)
    (a post : jsstring) :
  right_delimited a post -> right_delimited a (post ++ image_part E p).
Proof.
  intros [H|H]; [now left|]. right.
  destruct post as [|c post]; [|exact H].
  unfold image_part. simpl. destruct (imageText E p); [reflexivity | exact I].
Qed.

(** X21: an address that is right-delimited in the normalised text of the
    [full_text] and [text] fields is among the candidates, whether or not
    an image text is appended after it. *)
Theorem address_in_text_is_a_candidate (E : Env) (p : Payload)
    (pre a post : jsstring) :
  text_part E p = pre ++ a ++ post ->
  address_shape a ->
  right_delimited a post ->
  In a (candidates E p).
Proof.
  intros Ht Hs Hd. unfold candidates.
  rewrite combinedText_text_image, Ht, <- !app_assoc.
  apply in_scan. exists (length pre). split.
  - destruct Hs as [[Hlo _] _]. rewrite !length_app. lia.
  - rewrite (pushed_at_address pre a (post ++ image_part E p) Hs
               (right_delimited_before_image E p a post Hd)).
    now left.
Qed.

Lemma address_in_text_is_a_candidate_witness :
  In Ref.USDC
     (candidates (with_image Ref.offline (js "wagmi")) split_address_request).
Proof.
  apply (address_in_text_is_a_candidate
           (with_image Ref.offline (js "wagmi")) split_address_request
           (js "new token ") Ref.USDC []).
  - vm_compute. reflexivity.
  - apply address_shapeb_spec. vm_compute. reflexivity.
  - left. vm_compute. reflexivity.
Defined.

Lemma scan_two_consecutive (t : jsstring) (i : nat) (a : jsstring) :
  S i < length t ->
  pushed t i = [a] -> pushed t (S i) = [a] ->
  exists l1 l2, scan t = l1 ++ a :: a :: l2.
Proof.
  intros Hi H0 H1.
  assert (Ht : length t = i + S (S (length t - i - 2))) by lia.
  rewrite scan_flat_map, Ht, seq_app, flat_map_app. simpl seq.
  exists (flat_map (pushed t) (seq 0 i)),
         (flat_map (pushed t) (seq (S (S i)) (length t - i - 2))).
  cbn [flat_map]. rewrite H0, H1. reflexivity.
Qed.

Lemma validAddresses_twice (E : Env) (l1 l2 : list jsstring) (a : jsstring) :
  isValidSolanaAddress E a = true -> blocked E a = false ->
  validAddresses E (l1 ++ a :: a :: l2)
    = validAddresses E l1 ++ a :: a :: validAddresses E l2.
Proof.
  intros Hv Hb. unfold validAddresses. rewrite filter_app. simpl.
  rewrite Hv, Hb. reflexivity.
Qed.

(** X22: a validated address that follows a character outside the Base58
    class in the normalised text sources (for instance the separator in
    front of the [text] field) and is right-delimited there is looked up
    twice in a row. *)
Theorem address_after_separator_is_looked_up_twice (E : Env) (p : Payload)
    (pre : jsstring) (c : N) (a post : jsstring) :
  text_part E p = pre ++ c :: a ++ post ->
  isBase58 c = false ->
  address_shape a ->
  right_delimited a post ->
  isValidSolanaAddress E a = true ->
  blocked E a = false ->
  exists l1 l2, lookups (webhook E p) = l1 ++ a :: a :: l2.
Proof.
  intros Ht Hc Hs Hd Hv Hb.
  pose proof (right_delimited_before_image E p a post Hd) as Hd'.
  rewrite lookups_validated. unfold validated, candidates.
  rewrite combinedText_text_image, Ht.
  replace ((pre ++ c :: a ++ post) ++ image_part E p)
    with (pre ++ c :: a ++ post ++ image_part E p)
    by (rewrite <- app_assoc; simpl; now rewrite <- app_assoc).
  set (rest := post ++ image_part E p) in *.
  destruct (scan_two_consecutive (pre ++ c :: a ++ rest) (length pre) a)
    as [l1 [l2 Hscan]].
  - destruct Hs as [[Hlo _] _]. rewrite length_app. simpl.
    rewrite length_app. lia.
  - apply pushed_before_address; assumption.
  - change (pre ++ c :: a ++ rest) with (pre ++ [c] ++ a ++ rest).
    rewrite app_assoc.
    replace (S (length pre)) with (length (pre ++ [c]))
      by (rewrite length_app; simpl; lia).
    apply pushed_at_address; assumption.
  - rewrite Hscan, (validAddresses_twice E l1 l2 a Hv Hb). eauto.
Qed.

Lemma address_after_separator_is_looked_up_twice_witness :
  exists l1 l2,
    lookups (webhook Ref.offline repeated_address_request)
      = l1 ++ Ref.system_program :: Ref.system_program :: l2.
Proof.
  apply (address_after_separator_is_looked_up_twice
           Ref.offline repeated_address_request [] 32%N Ref.system_program []).
  - vm_compute. reflexivity.
  - reflexivity.
  - apply address_shapeb_spec. vm_compute. reflexivity.
  - right. exact I.
  - vm_compute. reflexivity.
  - vm_compute. reflexivity.
Defined.

(** ** Whitespace and the address alphabet *)

Lemma isBase58_not_whitespace (c : N) :
  isBase58 c = true -> isWhitespace c = false.
Proof.
  unfold isBase58, isWhitespace, in_range. intros H.
  assert (Hr : (49 <= c <= 122)%N).
  { repeat (apply orb_true_iff in H; destruct H as [H|H]);
      apply andb_true_iff in H; destruct H as [H1 H2];
      apply N.leb_le in H1; apply N.leb_le in H2; lia. }
  repeat (apply orb_false_iff; split);
    try (apply N.eqb_neq; lia);
    apply andb_false_iff; (left; apply N.leb_gt; lia) ||
                          (right; apply N.leb_gt; lia).
Qed.

(** X23: the whitespace removal applied to the [text] field keeps every
    Base58 character: a run of Base58 characters is returned unchanged,
    and pieces of an address separated by whitespace come out joined. *)
Theorem remove_whitespace_keeps_base58 (a1 gap a2 : jsstring) :
  Forall (fun c => isBase58 c = true) (a1 ++ a2) ->
  Forall (fun c => isWhitespace c = true) gap ->
  remove_whitespace (a1 ++ gap ++ a2) = a1 ++ a2.
Proof.
  intros Ha Hg. apply Forall_app in Ha. destruct Ha as [H1 H2].
  assert (Hsolid : forall a, Forall (fun c => isBase58 c = true) a ->
                             remove_whitespace a = a).
  { intros a H. apply remove_whitespace_solid.
    eapply Forall_impl; [|exact H]. apply isBase58_not_whitespace. }
  rewrite !remove_whitespace_app, (remove_whitespace_gap gap Hg),
    (Hsolid a1 H1), (Hsolid a2 H2). reflexivity.
Qed.

Lemma remove_whitespace_keeps_base58_witness :
  remove_whitespace (js "EPjFWdd5AufqSSqeM2qN1x" ++ [10; 32]%N ++
                     js "zybapC8G4wEGGkZwyTDt1v")
    = js "EPjFWdd5AufqSSqeM2qN1x" ++ js "zybapC8G4wEGGkZwyTDt1v".
Proof.
  apply (remove_whitespace_keeps_base58 (js "EPjFWdd5AufqSSqeM2qN1x")
           [10; 32]%N (js "zybapC8G4wEGGkZwyTDt1v")).
  - apply Forall_forall. intros c Hc.
    apply (proj1 (forallb_forall isBase58 _)) in Hc;
      [exact Hc | vm_compute; reflexivity].
  - repeat constructor.
Defined.

(** ** An address split in the [text] field (C9) *)

Lemma isBase58_range (c : N) : isBase58 c = true -> (49 <= c <= 122)%N.
Proof.
  unfold isBase58, in_range. intros H.
  repeat (apply orb_true_iff in H; destruct H as [H|H]);
    apply andb_true_iff in H; destruct H as [H1 H2];
    apply N.leb_le in H1; apply N.leb_le in H2; lia.
Qed.

Lemma replace_homoglyphs_base58 (a : jsstring) :
  Forall (fun c => isBase58 c = true) a -> replace_homoglyphs a = a.
Proof.
  induction 1 as [|c a Hc _ IH]; [reflexivity|].
  change (replace_homoglyphs (c :: a))
    with (replace_char c ++ replace_homoglyphs a).
  apply isBase58_range in Hc.
  rewrite replace_char_below_table by lia. rewrite IH. reflexivity.
Qed.

Lemma replace_homoglyphs_around (x a y : jsstring) :
  Forall (fun c => isBase58 c = true) a ->
  replace_homoglyphs (x ++ a ++ y)
    = replace_homoglyphs x ++ a ++ replace_homoglyphs y.
Proof.
  intros Ha.
  now rewrite !replace_homoglyphs_app, (replace_homoglyphs_base58 a Ha).
Qed.

(** C9, as amended: every whitespace character is removed from the
    [text] field before normalisation and scanning, so the pieces of an
    address split by whitespace in that field become contiguous, and so
    do the words around it; the joined address is a candidate when NFKC
    leaves the text fields as they are and the address is right-delimited
    in what remains after it (it has 44 characters, or nothing remains,
    or the next remaining character is outside the Base58 class after
    homoglyph substitution). The [full_text] field and the OCR text
    reach the normaliser with their whitespace. *)
Theorem split_address_in_text_field (E : Env) (p : Payload) :
  (Forall (fun c => isWhitespace c = false) (text_field p)
   /\
   (forall pre a1 gap a2 post,
      data_text p = Some (pre ++ a1 ++ gap ++ a2 ++ post) ->
      Forall (fun c => isWhitespace c = false) (a1 ++ a2) ->
      Forall (fun c => isWhitespace c = true) gap ->
      text_field p =
        remove_whitespace pre ++ (a1 ++ a2) ++ remove_whitespace post)
   /\
   fulltext_field p = or_empty (data_full_text p)
   /\
   combinedText E p =
     normalizeText E (or_empty (data_full_text p) ++ js " " ++ text_field p) ++
     match imageText E p with
     | Some ocr => js " " ++ normalizeText E ocr
     | None => []
     end)
  /\
  (forall pre a1 gap a2 post,
     data_text p = Some (pre ++ a1 ++ gap ++ a2 ++ post) ->
     Forall (fun c => isWhitespace c = true) gap ->
     address_shape (a1 ++ a2) ->
     normalize_NFKC E (fulltext_field p ++ js " " ++ text_field p)
       = fulltext_field p ++ js " " ++ text_field p ->
     right_delimited (a1 ++ a2)
       (replace_homoglyphs (remove_whitespace post)) ->
     In (a1 ++ a2) (candidates E p)).
Proof.
  pose proof (whitespace_removed_from_text_only E p) as Hws.
  split; [exact Hws|].
  destruct Hws as (_ & Hjoin & _ & _).
  intros pre a1 gap a2 post Ht Hg Hs Hfix Hd.
  assert (Hb : Forall (fun c => isBase58 c = true) (a1 ++ a2))
    by (destruct Hs as [_ Hb]; exact Hb).
  assert (Hsolid : Forall (fun c => isWhitespace c = false) (a1 ++ a2)).
  { eapply Forall_impl; [|exact Hb]. apply isBase58_not_whitespace. }
  specialize (Hjoin pre a1 gap a2 post Ht Hsolid Hg).
  assert (Hpart : text_part E p =
            replace_homoglyphs (fulltext_field p ++ js " " ++
                                remove_whitespace pre) ++
            (a1 ++ a2) ++ replace_homoglyphs (remove_whitespace post)).
  { unfold text_part, normalizeText. rewrite Hfix, Hjoin.
    replace (fulltext_field p ++ js " " ++
             remove_whitespace pre ++ (a1 ++ a2) ++ remove_whitespace post)
      with ((fulltext_field p ++ js " " ++ remove_whitespace pre) ++
            (a1 ++ a2) ++ remove_whitespace post)
      by (now rewrite <- !app_assoc).
    apply replace_homoglyphs_around. exact Hb. }
  unfold candidates. rewrite combinedText_text_image, Hpart.
  set (before := replace_homoglyphs (fulltext_field p ++ js " " ++
                                     remove_whitespace pre)).
  set (after := replace_homoglyphs (remove_whitespace post)) in *.
  replace ((before ++ (a1 ++ a2) ++ after) ++ image_part E p)
    with (before ++ (a1 ++ a2) ++ after ++ image_part E p)
    by (now rewrite <- !app_assoc).
  apply in_scan. exists (length before). split.
  - destruct Hs as [[Hlo _] _]. rewrite (length_app before).
    rewrite (length_app (a1 ++ a2)). lia.
  - rewrite (pushed_at_address before (a1 ++ a2) (after ++ image_part E p) Hs
               (right_delimited_before_image E p (a1 ++ a2) after Hd)).
    now left.
Qed.

Lemma split_address_in_text_field_witness :
  In (js "PjFWdd5AufqSSqeM2qN1x" ++ js "zybapC8G4wEGGkZwyTDt1v")
     (candidates (with_image Ref.offline (js "to the moon"))
        delimited_split_request).
Proof.
  pose proof (split_address_in_text_field
                (with_image Ref.offline (js "to the moon"))
                delimited_split_request) as [_ H].
  apply (H (js "CA: ") (js "PjFWdd5AufqSSqeM2qN1x") [10; 32]%N
           (js "zybapC8G4wEGGkZwyTDt1v") (js " !")).
  - reflexivity.
  - repeat constructor.
  - apply address_shapeb_spec. vm_compute. reflexivity.
  - vm_compute. reflexivity.
  - right. vm_compute. reflexivity.
Defined.

(** C9 fails as stated: with a word before and a word after the split
    address, the removal of whitespace joins the words to it; the text
    field becomes "buy", the 43 characters of the address and "now", a
    run of 49 Base58 characters of which the greedy pattern never takes
    exactly the address. *)
Lemma split_address_is_glued_to_its_neighbours :
  isValidSolanaAddress Ref.offline
    (js "PjFWdd5AufqSSqeM2qN1x" ++ js "zybapC8G4wEGGkZwyTDt1v") = true /\
  text_field glued_split_request
    = js "buy" ++ (js "PjFWdd5AufqSSqeM2qN1x" ++ js "zybapC8G4wEGGkZwyTDt1v")
      ++ js "now" /\
  ~ split_address_becomes_candidate Ref.offline glued_split_request.
Proof.
  split; [vm_compute; reflexivity|].
  split; [vm_compute; reflexivity|].
  intros H.
  refine (not_In_by_includes _ _ _
            (H (js "buy ") (js "PjFWdd5AufqSSqeM2qN1x") [10; 32]%N
               (js "zybapC8G4wEGGkZwyTDt1v") (js " now") _ _ _)).
  - vm_compute. reflexivity.
  - reflexivity.
  - repeat constructor.
  - apply address_shapeb_spec. vm_compute. reflexivity.
Qed.
